(** * ScratchABlock core IR: expressions, conditions, instructions, CFG dump

    A shallow embedding of [core.py]: the expression classes ([REG],
    [VALUE], [ADDR], [MEM], [SFUNC]), the instruction class [Inst] with its
    two renderings, the condition classes [SimpleCond] and [CompoundCond],
    the natural sort key and [dump_bblocks].

    Conventions of the embedding.
    - A Python [str] is a [string] whose characters are code points below
      256; the character predicates below follow Python on that range.
    - A Python [int] is a [Z].
    - A call that can raise returns a [result]: [Ok v] or [Raise e].
    - Object identity, where the code depends on it (a class with no
      [__eq__]), is an explicit [oid] field. *)

From Stdlib Require Import ZArith NArith List String Ascii Bool Lia.
From Stdlib Require Import Sorted Permutation.
From Stdlib Require DecimalString HexadecimalString.
Import ListNotations.
Open Scope Z_scope.
Open Scope list_scope.
Open Scope string_scope.

(** ** Exceptions and the error monad *)

Inductive exn : Type :=
| IndexError
| KeyError
| TypeError
| ValueError
| AssertionError.

Inductive result (A : Type) : Type :=
| Ok (a : A)
| Raise (e : exn).

Arguments Ok {A} a.
Arguments Raise {A} e.

Definition bind {A B : Type} (m : result A) (k : A -> result B) : result B :=
  match m with
  | Ok a => k a
  | Raise e => Raise e
  end.

Notation "x <- m ;; k" := (bind m (fun x => k))
  (at level 61, m at next level, right associativity).

Definition is_ok {A : Type} (m : result A) : bool :=
  match m with Ok _ => true | Raise _ => false end.

Section MapM.
Context {A B : Type} (f : A -> result B).

(** A list comprehension [[f(x) for x in l]]: left to right, the first
    exception escapes. *)
Fixpoint mapM (l : list A) : result (list B) :=
  match l with
  | [] => Ok []
  | x :: l' =>
      y <- f x ;;
      ys <- mapM l' ;;
      Ok (y :: ys)
  end.
End MapM.

(** ** Python built-ins on characters, strings and integers *)

Module Py.

Definition code (c : ascii) : N := N_of_ascii c.

(** The class [[0-9]] of the [re] module. *)
Definition is_ascii_digit (c : ascii) : bool :=
  ((48 <=? code c) && (code c <=? 57))%N.

(** [str.isdigit] on one character: the ASCII digits and the superscript
    digits U+00B2, U+00B3, U+00B9. *)
Definition isdigit_char (c : ascii) : bool :=
  is_ascii_digit c
  || (code c =? 178)%N || (code c =? 179)%N || (code c =? 185)%N.

Fixpoint all_chars (p : ascii -> bool) (s : string) : bool :=
  match s with
  | EmptyString => true
  | String c s' => p c && all_chars p s'
  end.

(** [s.isdigit()]: at least one character, and all of them digits. *)
Definition isdigit (s : string) : bool :=
  match s with
  | EmptyString => false
  | String _ _ => all_chars isdigit_char s
  end.

(** [c.isalpha()] on one character. *)
Definition isalpha_char (c : ascii) : bool :=
  let n := code c in
  (((65 <=? n) && (n <=? 90)) || ((97 <=? n) && (n <=? 122))
   || (n =? 170) || (n =? 181) || (n =? 186)
   || ((192 <=? n) && (n <=? 214)) || ((216 <=? n) && (n <=? 246))
   || ((248 <=? n) && (n <=? 255)))%N.

Fixpoint digits_value (acc : N) (s : string) : N :=
  match s with
  | EmptyString => acc
  | String c s' => digits_value (10 * acc + (code c - 48))%N s'
  end.

(** [int(s)] for a string that passed [isdigit]: a superscript digit is
    refused with [ValueError]. *)
Definition int_of_str (s : string) : result Z :=
  match s with
  | EmptyString => Raise ValueError
  | String _ _ =>
      if all_chars is_ascii_digit s
      then Ok (Z.of_N (digits_value 0%N s))
      else Raise ValueError
  end.

(** [str(n)] for an int. *)
Definition str_int (n : Z) : string :=
  DecimalString.NilZero.string_of_int (Z.to_int n).

(** ["%x" % n]: lower-case digits, a minus sign before the magnitude. *)
Definition hex (n : Z) : string :=
  let digits :=
    HexadecimalString.NilZero.string_of_uint (N.to_hex_uint (Z.abs_N n)) in
  if (n <? 0)%Z then "-" ++ digits else digits.

Definition hex_digit (n : N) : ascii :=
  if (n <? 10)%N then ascii_of_N (48 + n) else ascii_of_N (87 + n).

(** Whether [repr] prints a character as it is. *)
Definition isprintable (c : ascii) : bool :=
  let n := code c in
  (((32 <=? n) && (n <? 127))
   || ((161 <=? n) && negb (n =? 173)))%N.

Fixpoint contains_char (c : ascii) (s : string) : bool :=
  match s with
  | EmptyString => false
  | String d s' => Ascii.eqb c d || contains_char c s'
  end.

Definition backslash : ascii := ascii_of_N 92.
Definition squote : ascii := ascii_of_N 39.
Definition dquote : ascii := ascii_of_N 34.

Definition escaped (c : ascii) : string :=
  String backslash (String c EmptyString).

(** One character of [repr(s)] between the quotes [quote]. *)
Definition repr_char (quote c : ascii) : string :=
  let n := code c in
  if Ascii.eqb c quote || Ascii.eqb c backslash then escaped c
  else if (n =? 9)%N then escaped "t"%char
  else if (n =? 10)%N then escaped "n"%char
  else if (n =? 13)%N then escaped "r"%char
  else if isprintable c then String c EmptyString
  else String backslash
         (String "x"%char
            (String (hex_digit (n / 16)%N)
               (String (hex_digit (n mod 16)%N) EmptyString))).

Fixpoint repr_chars (quote : ascii) (s : string) : string :=
  match s with
  | EmptyString => EmptyString
  | String c s' => repr_char quote c ++ repr_chars quote s'
  end.

(** [repr(s)] for a str: single quotes, unless the text has a single
    quote and no double quote. *)
Definition repr_str (s : string) : string :=
  let quote :=
    if contains_char squote s && negb (contains_char dquote s)
    then dquote else squote in
  String quote (repr_chars quote s ++ String quote EmptyString).

(** [sep.join(l)]. *)
Fixpoint join (sep : string) (l : list string) : string :=
  match l with
  | [] => EmptyString
  | [x] => x
  | x :: l' => x ++ sep ++ join sep l'
  end.

(** [str(l)] of a list whose items have the given [repr]s. *)
Definition repr_list (items : list string) : string :=
  "[" ++ join ", " items ++ "]".

(** The newline that [print] and the renderers write. *)
Definition nl : string := String (ascii_of_N 10) EmptyString.

End Py.

(** ** [natural_sort_key] *)

(** An item of a sort key: [int(x)] for a digit run, the text otherwise. *)
Inductive key : Type :=
| KInt (n : Z)
| KStr (s : string).

(** [re.split("([0-9]+)", s)], scanning left to right: [cur] is the run
    being read, [in_digits] tells whether it is a digit run.  The result
    alternates text, digits, text, ..., and begins and ends with a text
    (possibly empty). *)
Fixpoint split_from (in_digits : bool) (cur : string) (s : string)
  : list string :=
  match s with
  | EmptyString => if in_digits then [cur; EmptyString] else [cur]
  | String c s' =>
      if Py.is_ascii_digit c then
        if in_digits
        then split_from true (cur ++ String c EmptyString) s'
        else cur :: split_from true (String c EmptyString) s'
      else
        if in_digits
        then cur :: split_from false (String c EmptyString) s'
        else split_from false (cur ++ String c EmptyString) s'
  end.

Definition re_split_digits (s : string) : list string :=
  split_from false EmptyString s.

(** [int(x) if x.isdigit() else x]. *)
Definition key_of (x : string) : result key :=
  if Py.isdigit x
  then n <- Py.int_of_str x ;; Ok (KInt n)
  else Ok (KStr x).

Definition natural_sort_key (s : string) : result (list key) :=
  mapM key_of (re_split_digits s).

(** [==] and [<] on the items of a key; an int and a str are never equal,
    and ordering them raises [TypeError]. *)
Definition key_eq (x y : key) : bool :=
  match x, y with
  | KInt a, KInt b => (a =? b)%Z
  | KStr a, KStr b => (a =? b)%string
  | _, _ => false
  end.

Definition key_lt (x y : key) : result bool :=
  match x, y with
  | KInt a, KInt b => Ok (a <? b)%Z
  | KStr a, KStr b => Ok (a <? b)%string
  | _, _ => Raise TypeError
  end.

(** [l1 < l2] on lists: the first pair of unequal items decides, a proper
    prefix is smaller. *)
Fixpoint list_lt (l1 l2 : list key) : result bool :=
  match l1, l2 with
  | [], [] => Ok false
  | [], _ :: _ => Ok true
  | _ :: _, [] => Ok false
  | x :: l1', y :: l2' =>
      if key_eq x y then list_lt l1' l2' else key_lt x y
  end.

(** ** Expressions *)

(** The five classes derived from [SimpleExpr].  [comment] is the class
    attribute of [SimpleExpr], [""] unless a pass sets it on the object.
    [SFUNC] defines no [__eq__], so [==] on it is object identity: [oid] is
    the identity of the object. *)
Inductive expr : Type :=
| REG (comment : string) (name : string)
| VALUE (comment : string) (val : Z) (base : Z)
| ADDR (comment : string) (addr : string)
| MEM (comment : string) (type : string) (base : expr) (offset : Z)
| SFUNC (oid : positive) (comment : string) (name : string).

(** The constructors as the code calls them: no comment, [base=16],
    [offset=0]. *)
Definition mkREG (name : string) : expr := REG EmptyString name.
Definition mkVALUE (val : Z) : expr := VALUE EmptyString val 16.
Definition mkADDR (addr : string) : expr := ADDR EmptyString addr.
Definition mkMEM (type : string) (base : expr) : expr :=
  MEM EmptyString type base 0.
Definition mkSFUNC (oid : positive) (name : string) : expr :=
  SFUNC oid EmptyString name.

Definition comment_of (e : expr) : string :=
  match e with
  | REG c _ | VALUE c _ _ | ADDR c _ | MEM c _ _ _ | SFUNC _ c _ => c
  end.

(** [type(e).__name__]. *)
Definition type_name (e : expr) : string :=
  match e with
  | REG _ _ => "REG"
  | VALUE _ _ _ => "VALUE"
  | ADDR _ _ => "ADDR"
  | MEM _ _ _ _ => "MEM"
  | SFUNC _ _ _ => "SFUNC"
  end.

(** [str(e)].  [MEM] has no [__str__], so [str] of it is its [__repr__],
    which formats the base with [%s]. *)
Fixpoint expr_str (e : expr) : string :=
  match e with
  | REG comment name => comment ++ "$" ++ name
  | VALUE comment val base =>
      let v := if (base =? 16)%Z then "0x" ++ Py.hex val else Py.str_int val in
      comment ++ v
  | ADDR comment addr => comment ++ addr
  | MEM comment type base offset =>
      if (offset =? 0)%Z
      then comment ++ "*(" ++ type ++ "*)" ++ expr_str base
      else comment ++ "*(" ++ type ++ "*)(" ++ expr_str base
                   ++ " + 0x" ++ Py.hex offset ++ ")"
  | SFUNC _ _ name => name
  end.

(** [repr(e)]. *)
Definition expr_repr (e : expr) : string :=
  match e with
  | REG comment name => comment ++ "REG(" ++ name ++ ")"
  | VALUE comment val _ => comment ++ "VALUE(0x" ++ Py.hex val ++ ")"
  | ADDR comment addr => comment ++ "ADDR(" ++ addr ++ ")"
  | MEM _ _ _ _ => expr_str e
  | SFUNC _ _ name => "(SFUNC)" ++ name
  end.

(** [e1 == e2]. *)
Fixpoint expr_eq (e1 e2 : expr) : bool :=
  match e1, e2 with
  | REG _ n1, REG _ n2 => (n1 =? n2)%string
  | VALUE _ v1 _, VALUE _ v2 _ => (v1 =? v2)%Z
  | ADDR _ a1, ADDR _ a2 => (a1 =? a2)%string
  | MEM _ t1 b1 o1, MEM _ t2 b2 o2 =>
      (t1 =? t2)%string && expr_eq b1 b2 && (o1 =? o2)%Z
  | SFUNC id1 _ _, SFUNC id2 _ _ => Pos.eqb id1 id2
  | _, _ => false
  end.

(** [self < other].  Only [REG] and [MEM] define [__lt__], and no class
    defines [__gt__]: for the other classes the comparison raises. *)
Fixpoint expr_lt (self other : expr) : result bool :=
  match self with
  | REG _ name =>
      match other with
      | REG _ name' =>
          n1 <- natural_sort_key name ;;
          n2 <- natural_sort_key name' ;;
          list_lt n1 n2
      | _ => Ok (type_name self <? type_name other)%string
      end
  | MEM _ _ base offset =>
      match other with
      | MEM _ _ base' offset' =>
          if expr_eq base base'
          then Ok (offset <? offset')%Z
          else expr_lt base base'
      | _ => Ok (type_name self <? type_name other)%string
      end
  | _ => Raise TypeError
  end.

(** [e.reg()]. *)
Definition reg (e : expr) : option expr :=
  match e with
  | REG _ _ => Some e
  | MEM _ _ (REG _ _ as b) _ => Some b
  | _ => None
  end.

(** ** Dictionaries

    A [dict] with str keys, as the list of its items in insertion order. *)

Section Dict.
Context {V : Type}.

(** [d.get(k)]. *)
Fixpoint dict_get (k : string) (d : list (string * V)) : option V :=
  match d with
  | [] => None
  | (k', v) :: d' => if (k' =? k)%string then Some v else dict_get k d'
  end.

(** [k in d]. *)
Definition dict_contains (k : string) (d : list (string * V)) : bool :=
  match dict_get k d with Some _ => true | None => false end.

(** [d[k]]. *)
Definition dict_getitem (k : string) (d : list (string * V)) : result V :=
  match dict_get k d with
  | Some v => Ok v
  | None => Raise KeyError
  end.

(** The items left by [d.pop(k)]. *)
Fixpoint dict_remove (k : string) (d : list (string * V))
  : list (string * V) :=
  match d with
  | [] => []
  | (k', v) :: d' =>
      if (k' =? k)%string then dict_remove k d'
      else (k', v) :: dict_remove k d'
  end.
End Dict.

(** [repr(d)], given the [repr] of every value. *)
Definition dict_repr (d : list (string * string)) : string :=
  "{" ++ Py.join ", " (map (fun kv => Py.repr_str (fst kv) ++ ": " ++ snd kv) d)
      ++ "}".

(** [l[i]]. *)
Definition getitem {A : Type} (l : list A) (i : nat) : result A :=
  match nth_error l i with
  | Some x => Ok x
  | None => Raise IndexError
  end.

(** ** Conditions *)

(** [CompoundCond.args] holds connectives (str) and sub-conditions;
    [isinstance(x, str)] tells them apart: [Conn] is a str. *)
Inductive cond : Type :=
| SimpleCond (arg1 : expr) (op : string) (arg2 : expr)
| CompoundCond (args : list citem)
with citem : Type :=
| Conn (s : string)
| Sub (c : cond).

Definition SimpleCond_NEG : list (string * string) :=
  [ ("==", "!="); ("!=", "=="); (">", "<="); ("<", ">=");
    (">=", "<"); ("<=", ">") ].

Definition CompoundCond_NEG : list (string * string) :=
  [ ("&&", "||"); ("||", "&&") ].

(** [c.neg()]: a new condition; a key missing from [NEG] raises. *)
Fixpoint neg (c : cond) : result cond :=
  match c with
  | SimpleCond arg1 op arg2 =>
      op' <- dict_getitem op SimpleCond_NEG ;;
      Ok (SimpleCond arg1 op' arg2)
  | CompoundCond args =>
      l <- mapM (fun x : citem =>
                   match x with
                   | Conn s => s' <- dict_getitem s CompoundCond_NEG ;; Ok (Conn s')
                   | Sub c' => c'' <- neg c' ;; Ok (Sub c'')
                   end) args ;;
      Ok (CompoundCond l)
  end.

(** [c.list()]. *)
Definition cond_list (c : cond) : list citem :=
  match c with
  | SimpleCond _ _ _ => [Sub c]
  | CompoundCond args => args
  end.

(** [str(c)]. *)
Fixpoint cond_str (c : cond) : string :=
  match c with
  | SimpleCond arg1 op arg2 =>
      "(" ++ expr_str arg1 ++ " " ++ op ++ " " ++ expr_str arg2 ++ ")"
  | CompoundCond args =>
      "(" ++ Py.join " "
               (map (fun x : citem =>
                       match x with
                       | Conn s => s
                       | Sub c' => cond_str c'
                       end) args)
          ++ ")"
  end.

(** [repr(c)]. *)
Definition cond_repr (c : cond) : string :=
  match c with
  | SimpleCond _ _ _ => "SCond" ++ cond_str c
  | CompoundCond _ => "CCond" ++ cond_str c
  end.

(** ** Instructions *)

(** An argument of an instruction: an expression, or for [LIT] the text
    of the line. *)
Inductive arg : Type :=
| AExpr (e : expr)
| AStr (s : string).

(** [Inst].  [comments] is the annotation dict; under the key ["org_inst"]
    a pass stores the instruction it replaced. *)
Inductive inst : Type :=
| Inst (dest : option expr) (op : string) (args : list arg)
       (addr : option string) (comments : list (string * annot))
with annot : Type :=
| AnInst (i : inst)
| AnStr (s : string).

(** [Inst(dest, op, args, addr)]: the annotations start empty. *)
Definition mkInst (dest : option expr) (op : string) (args : list arg)
  (addr : option string) : inst :=
  Inst dest op args addr [].

Definition inst_dest (i : inst) := let (d, _, _, _, _) := i in d.
Definition inst_op (i : inst) := let (_, o, _, _, _) := i in o.
Definition inst_args (i : inst) := let (_, _, a, _, _) := i in a.
Definition inst_addr (i : inst) := let (_, _, _, a, _) := i in a.
Definition inst_comments (i : inst) := let (_, _, _, _, c) := i in c.

Definition arg_str (a : arg) : string :=
  match a with
  | AExpr e => expr_str e
  | AStr s => s
  end.

Definition arg_repr (a : arg) : string :=
  match a with
  | AExpr e => expr_repr e
  | AStr s => Py.repr_str s
  end.

(** [a == b] on arguments: a str never equals an expression. *)
Definition arg_eq (a b : arg) : bool :=
  match a, b with
  | AExpr e1, AExpr e2 => expr_eq e1 e2
  | AStr s1, AStr s2 => (s1 =? s2)%string
  | _, _ => false
  end.

(** [l1 == l2] on argument lists. *)
Fixpoint args_eq (l1 l2 : list arg) : bool :=
  match l1, l2 with
  | [], [] => true
  | a :: l1', b :: l2' => arg_eq a b && args_eq l1' l2'
  | _, _ => false
  end.

(** [d1 == d2] on destinations, either of which may be [None]. *)
Definition dest_eq (d1 d2 : option expr) : bool :=
  match d1, d2 with
  | None, None => true
  | Some e1, Some e2 => expr_eq e1 e2
  | _, _ => false
  end.

(** [self.dest == args[0]]. *)
Definition dest_eq_arg (d : option expr) (a : arg) : bool :=
  match d, a with
  | Some e, AExpr e' => expr_eq e e'
  | _, _ => false
  end.

(** [str(self.dest)]. *)
Definition dest_str (d : option expr) : string :=
  match d with
  | Some e => expr_str e
  | None => "None"
  end.

(** [Inst.__eq__]. *)
Definition inst_eq (self other : inst) : bool :=
  (inst_op self =? inst_op other)%string
  && dest_eq (inst_dest self) (inst_dest other)
  && args_eq (inst_args self) (inst_args other).

(** The leading comment line; [org] is [str(comments["org_inst"])] when
    the key is there. *)
Definition org_line (org : option (result string)) : result string :=
  match org with
  | None => Ok EmptyString
  | Some r => t <- r ;; Ok ("// " ++ t ++ Py.nl)
  end.

(** The body of [Inst.__str__]. *)
Definition Inst_str_body (dest : option expr) (op : string) (args : list arg)
  (org : option (result string)) : result string :=
  if (op =? "LIT")%string then
    match args with
    | [] => Raise IndexError
    | AStr s :: _ => Ok s
    | AExpr _ :: _ => Raise TypeError
    end
  else
    s <- org_line org ;;
    if (op =? "return")%string then Ok (s ++ op)
    else if (op =? "goto")%string || (op =? "call")%string then
      a0 <- getitem args 0 ;;
      Ok (s ++ op ++ " " ++ arg_str a0)
    else if (op =? "ASSIGN")%string then
      a0 <- getitem args 0 ;;
      Ok (s ++ dest_str dest ++ " = " ++ arg_str a0)
    else
      match op with
      | EmptyString => Raise IndexError
      | String c _ =>
          if negb (Py.isalpha_char c) then
            if negb (List.length args =? 2)%nat then Raise AssertionError
            else
              a0 <- getitem args 0 ;;
              a1 <- getitem args 1 ;;
              if dest_eq_arg dest a0
              then Ok (s ++ dest_str dest ++ " " ++ op ++ "= " ++ arg_str a1)
              else Ok (s ++ dest_str dest ++ " = " ++ arg_str a0
                         ++ " " ++ op ++ " " ++ arg_str a1)
          else
            let s := match dest with
                     | Some d => s ++ expr_str d ++ " = "
                     | None => s
                     end in
            if (op =? "SFUNC")%string then
              match args with
              | [] => Raise IndexError
              | a0 :: rest =>
                  Ok (s ++ arg_str a0
                        ++ "(" ++ Py.join ", " (map arg_str rest) ++ ")")
              end
            else
              Ok (s ++ op ++ "(" ++ Py.join ", " (map arg_str args) ++ ")")
      end.

(** [str(i)], that is [Inst.__str__]. *)
Fixpoint Inst_str (i : inst) : result string :=
  match i with
  | Inst dest op args addr comments =>
      Inst_str_body dest op args
        (dict_get "org_inst"
           (map (fun kv : string * annot =>
                   match kv with
                   | (k, AnInst j) => (k, Inst_str j)
                   | (k, AnStr t) => (k, Ok t)
                   end) comments))
  end.

(** [str(v)] of an annotation value. *)
Definition annot_str (v : annot) : result string :=
  match v with
  | AnInst j => Inst_str j
  | AnStr t => Ok t
  end.

(** The body of [Inst.__repr__], on the copy of the annotations: [org] is
    [str] of the popped ["org_inst"] value, [rest] the [repr]s of the items
    left in the copy. *)
Definition Inst_repr_body (dest : option expr) (op : string) (args : list arg)
  (addr : option string) (org : option (result string))
  (rest : list (string * result string)) : result string :=
  s <- org_line org ;;
  let s := match addr with
           | Some a => s ++ "/*" ++ a ++ "*/ "
           | None => s
           end in
  s <- match dest with
       | None =>
           if (op =? "LIT")%string then
             match args with
             | [] => Raise IndexError
             | AStr t :: _ => Ok (s ++ t)
             | AExpr _ :: _ => Raise TypeError
             end
           else Ok (s ++ op ++ "(" ++ Py.repr_list (map arg_repr args) ++ ")")
       | Some d =>
           Ok (s ++ expr_str d ++ " = " ++ op
                 ++ "(" ++ Py.repr_list (map arg_repr args) ++ ")")
       end ;;
  match rest with
  | [] => Ok s
  | _ :: _ =>
      items <- mapM (fun kv : string * result string =>
                       v <- snd kv ;; Ok (fst kv, v)) rest ;;
      Ok (s ++ " # " ++ dict_repr items)
  end.

(** [repr(i)], that is [Inst.__repr__], as a function of the value of the
    instruction. *)
Fixpoint Inst_repr (i : inst) : result string :=
  match i with
  | Inst dest op args addr comments =>
      Inst_repr_body dest op args addr
        (dict_get "org_inst"
           (map (fun kv : string * annot =>
                   match kv with
                   | (k, AnInst j) => (k, Inst_str j)
                   | (k, AnStr t) => (k, Ok t)
                   end) comments))
        (dict_remove "org_inst"
           (map (fun kv : string * annot =>
                   match kv with
                   | (k, AnInst j) => (k, Inst_repr j)
                   | (k, AnStr t) => (k, Ok (Py.repr_str t))
                   end) comments))
  end.

(** [repr(v)] of an annotation value. *)
Definition annot_repr (v : annot) : result string :=
  match v with
  | AnInst j => Inst_repr j
  | AnStr t => Ok (Py.repr_str t)
  end.

(** ** [Inst.__repr__] on the heap

    [__repr__] copies the annotation dict and pops from the copy.  Here the
    dicts live in a heap and an instruction object refers to its dict by
    location, so that the copy and the original are two objects.  The values
    stored in a dict are read only, and stay values. *)

Module Heap.

Definition dict : Type := list (string * annot).
Definition loc : Type := nat.
Definition heap : Type := list dict.

(** Computations that read and write the heap and may raise; what was
    written before an exception stays written. *)
Definition M (A : Type) : Type := heap -> result A * heap.

Definition ret {A : Type} (a : A) : M A := fun h => (Ok a, h).

Definition raise {A : Type} (e : exn) : M A := fun h => (Raise e, h).

Definition bindM {A B : Type} (m : M A) (k : A -> M B) : M B :=
  fun h =>
    match m h with
    | (Ok a, h') => k a h'
    | (Raise e, h') => (Raise e, h')
    end.

(** A pure computation that may raise. *)
Definition lift {A : Type} (r : result A) : M A := fun h => (r, h).

Notation "x <-- m ;; k" := (bindM m (fun x => k))
  (at level 61, m at next level, right associativity).

Definition read (l : loc) : M dict :=
  fun h => (Ok (nth l h []), h).

Fixpoint update (l : loc) (d : dict) (h : heap) : heap :=
  match h, l with
  | [], _ => []
  | _ :: h', O => d :: h'
  | d' :: h', S l' => d' :: update l' d h'
  end.

Definition write (l : loc) (d : dict) : M unit :=
  fun h => (Ok tt, update l d h).

Definition alloc (d : dict) : M loc :=
  fun h => (Ok (List.length h), (h ++ [d])%list).

(** [d.copy()]: a new dict with the same items. *)
Definition copy (l : loc) : M loc :=
  d <-- read l ;; alloc d.

(** [k in d]. *)
Definition contains (k : string) (l : loc) : M bool :=
  d <-- read l ;; ret (dict_contains k d).

(** [d.pop(k)]: removes the item from the dict at [l]. *)
Definition pop (k : string) (l : loc) : M annot :=
  d <-- read l ;;
  match dict_get k d with
  | Some v => _ <-- write l (dict_remove k d) ;; ret v
  | None => raise KeyError
  end.

(** An [Inst] object: [comments] is a reference to its dict. *)
Record inst_obj : Type := {
  o_dest : option expr;
  o_op : string;
  o_args : list arg;
  o_addr : option string;
  o_comments : loc
}.

(** The value of the object in a heap. *)
Definition load (h : heap) (o : inst_obj) : inst :=
  Inst (o_dest o) (o_op o) (o_args o) (o_addr o) (nth (o_comments o) h []).

(** [Inst.__repr__(self)]. *)
Definition Inst_repr (self : inst_obj) : M string :=
  comments <-- copy (o_comments self) ;;
  has_org <-- contains "org_inst" comments ;;
  s <-- (if has_org
         then v <-- pop "org_inst" comments ;;
              t <-- lift (annot_str v) ;;
              ret ("// " ++ t ++ Py.nl)
         else ret EmptyString) ;;
  let s := match o_addr self with
           | Some a => s ++ "/*" ++ a ++ "*/ "
           | None => s
           end in
  s <-- match o_dest self with
        | None =>
            if (o_op self =? "LIT")%string then
              match o_args self with
              | [] => raise IndexError
              | AStr t :: _ => ret (s ++ t)
              | AExpr _ :: _ => raise TypeError
              end
            else ret (s ++ o_op self
                        ++ "(" ++ Py.repr_list (map arg_repr (o_args self)) ++ ")")
        | Some d =>
            ret (s ++ expr_str d ++ " = " ++ o_op self
                   ++ "(" ++ Py.repr_list (map arg_repr (o_args self)) ++ ")")
        end ;;
  left <-- read comments ;;
  match left with
  | [] => ret s
  | _ :: _ =>
      items <-- lift (mapM (fun kv : string * annot =>
                              v <- annot_repr (snd kv) ;; Ok (fst kv, v)) left) ;;
      ret (s ++ " # " ++ dict_repr items)
  end.

End Heap.

(** ** [sorted] *)

Section PySorted.
Context {A : Type} (lt : A -> A -> result bool).

(** [x] goes before the first item that is not smaller than it, so items
    that compare equal keep their order, as [sorted] guarantees. *)
Fixpoint insert_sorted (x : A) (l : list A) : result (list A) :=
  match l with
  | [] => Ok [x]
  | y :: l' =>
      b <- lt y x ;;
      if b then r <- insert_sorted x l' ;; Ok (y :: r)
      else Ok (x :: l)
  end.

(** [sorted(l)], comparing with [<] only. *)
Fixpoint py_sorted (l : list A) : result (list A) :=
  match l with
  | [] => Ok []
  | x :: l' => r <- py_sorted l' ;; insert_sorted x r
  end.
End PySorted.

(** [a < b] on str. *)
Definition str_lt (a b : string) : result bool := Ok (a <? b)%string.

(** ** Basic blocks *)

Record BBlock : Type := {
  bb_addr : string;
  items : list inst
}.

(** A stream is the text written to it so far. *)
Definition stream_write (stream text : string) : string := stream ++ text.

Fixpoint indentation (indent : nat) : string :=
  match indent with
  | O => EmptyString
  | S n => "  " ++ indentation n
  end.

(** [BBlock.write(stream, indent, s)]. *)
Definition BBlock_write (stream : string) (indent : nat) (s : string) : string :=
  let stream := stream_write stream (indentation indent) in
  stream_write stream (s ++ Py.nl).

(** [BBlock.dump(stream, indent, printer)]. *)
Fixpoint BBlock_dump (stream : string) (indent : nat)
  (printer : inst -> result string) (l : list inst) : result string :=
  match l with
  | [] => Ok stream
  | s :: l' =>
      t <- printer s ;;
      BBlock_dump (BBlock_write stream indent t) indent printer l'
  end.

(** ** The graph *)

(** Modelled from the spec: the node payload of the graph container (module
    [graph], which [core.py] imports and which is not part of it).  A payload
    holds at most one basic block (the key ["val"]) and an optional integer
    DFS number (the key ["dfsno"]). *)
Record node_info : Type := {
  val : option BBlock;
  dfsno : option Z
}.

(** Modelled from the spec: the queries of the graph container that
    [dump_bblocks] uses.  [nodes] maps address keys to payloads, [pred] gives
    the predecessor set of an address (in any order), [succ] its successors
    in the order of the container, [edge_cond] the optional condition of the
    edge between two addresses, that is [edge(a, b).get("cond")]. *)
Record Graph : Type := {
  nodes : list (string * node_info);
  pred : string -> list string;
  succ : string -> list string;
  edge_cond : string -> string -> option cond
}.

(** Modelled from the spec: [Graph.iter_sorted_nodes], the nodes sorted by
    address with the natural sort key, the comparison used for register
    names. *)
Definition iter_sorted_nodes (cfg : Graph)
  : result (list (string * node_info)) :=
  keyed <- mapM (fun n : string * node_info =>
                   k <- natural_sort_key (fst n) ;; Ok (k, n)) (nodes cfg) ;;
  sorted <- py_sorted (fun a b : list key * (string * node_info) =>
                         list_lt (fst a) (fst b)) keyed ;;
  Ok (map snd sorted).

(** ** [dump_bblocks] *)

(** [repr] of the first item of an exit pair: a condition or [None]. *)
Definition opt_cond_repr (c : option cond) : string :=
  match c with
  | Some c => cond_repr c
  | None => "None"
  end.

(** [repr((c, x))]. *)
Definition exit_repr (c : option cond) (x : string) : string :=
  "(" ++ opt_cond_repr c ++ ", " ++ Py.repr_str x ++ ")".

(** [print(text, file=stream)]. *)
Definition print (stream text : string) : string :=
  stream_write stream (text ++ Py.nl).

(** One turn of the loop of [dump_bblocks]. *)
Definition dump_node (cfg : Graph) (printer : inst -> result string)
  (stream : string) (cnt : nat) (node : string * node_info) : result string :=
  let (addr, info) := node in
  let bblock := val info in
  let stream := if (0 <? cnt)%nat then stream_write stream Py.nl else stream in
  preds <- py_sorted str_lt (pred cfg addr) ;;
  let stream :=
    print stream ("// Predecessors: " ++ Py.repr_list (map Py.repr_str preds)) in
  let stream :=
    match dfsno info with
    | Some n => print stream ("// DFS#: " ++ Py.str_int n)
    | None => stream
    end in
  let stream := print stream (addr ++ ":") in
  stream <- match bblock with
            | Some b => BBlock_dump stream 0 printer (items b)
            | None => Ok (print stream ("   " ++ " " ++ "None"))
            end ;;
  let succ := succ cfg addr in
  Ok (print stream
        ("Exits:" ++ " "
           ++ Py.repr_list (map (fun x => exit_repr (edge_cond cfg addr x) x) succ))).

Fixpoint dump_loop (cfg : Graph) (printer : inst -> result string)
  (stream : string) (cnt : nat) (l : list (string * node_info))
  : result string :=
  match l with
  | [] => Ok stream
  | node :: l' =>
      stream <- dump_node cfg printer stream cnt node ;;
      dump_loop cfg printer stream (S cnt) l'
  end.

(** [dump_bblocks(cfg, stream, printer)] on an empty stream: the text
    written. *)
Definition dump_bblocks (cfg : Graph) (printer : inst -> result string)
  : result string :=
  sorted_nodes <- iter_sorted_nodes cfg ;;
  dump_loop cfg printer EmptyString 0 sorted_nodes.

(** ** Predicates used in the statements *)

(** No [SFUNC] object inside the expression. *)
Fixpoint sfunc_free (e : expr) : bool :=
  match e with
  | SFUNC _ _ _ => false
  | MEM _ _ base _ => sfunc_free base
  | _ => true
  end.

(** The fields that [__eq__] compares, one rule per class that defines it:
    the name of a [REG], the value of a [VALUE] (not its display base), the
    text of an [ADDR], and type, base and offset of a [MEM].  The comment is
    never compared. *)
Inductive same_fields : expr -> expr -> Prop :=
| SameREG c1 c2 name :
    same_fields (REG c1 name) (REG c2 name)
| SameVALUE c1 c2 val base1 base2 :
    same_fields (VALUE c1 val base1) (VALUE c2 val base2)
| SameADDR c1 c2 addr :
    same_fields (ADDR c1 addr) (ADDR c2 addr)
| SameMEM c1 c2 type base1 base2 offset :
    same_fields base1 base2 ->
    same_fields (MEM c1 type base1 offset) (MEM c2 type base2 offset).

(** Equality as the specification words it: the same variant, and every
    field of the variant equal (for a Value, the display base too). *)
Fixpoint all_fields_eq (e1 e2 : expr) : bool :=
  match e1, e2 with
  | REG _ n1, REG _ n2 => (n1 =? n2)%string
  | VALUE _ v1 b1, VALUE _ v2 b2 => (v1 =? v2)%Z && (b1 =? b2)%Z
  | ADDR _ a1, ADDR _ a2 => (a1 =? a2)%string
  | MEM _ t1 b1 o1, MEM _ t2 b2 o2 =>
      (t1 =? t2)%string && all_fields_eq b1 b2 && (o1 =? o2)%Z
  | SFUNC _ _ n1, SFUNC _ _ n2 => (n1 =? n2)%string
  | _, _ => false
  end.

(** [starts_with p s]: the text [s] begins with [p]. *)
Definition starts_with (p s : string) : bool := String.prefix p s.

(** One item of [CompoundCond.neg]'s comprehension. *)
Definition neg_item (x : citem) : result citem :=
  match x with
  | Conn s => s' <- dict_getitem s CompoundCond_NEG ;; Ok (Conn s')
  | Sub c => c' <- neg c ;; Ok (Sub c')
  end.

(** A condition as the data model has it: comparison operators from the
    table of [SimpleCond.NEG], connectives from that of [CompoundCond.NEG]. *)
Fixpoint wf_cond (c : cond) : bool :=
  match c with
  | SimpleCond _ op _ => dict_contains op SimpleCond_NEG
  | CompoundCond args =>
      forallb (fun x : citem =>
                 match x with
                 | Conn s => dict_contains s CompoundCond_NEG
                 | Sub c' => wf_cond c'
                 end) args
  end.

Definition wf_item (x : citem) : bool :=
  match x with
  | Conn s => dict_contains s CompoundCond_NEG
  | Sub c => wf_cond c
  end.

(** What negation does to one item of a compound condition: a connective
    is swapped, a sub-condition negated. *)
Inductive negated_item : citem -> citem -> Prop :=
| NegatedAnd : negated_item (Conn "&&") (Conn "||")
| NegatedOr : negated_item (Conn "||") (Conn "&&")
| NegatedSub c c' : neg c = Ok c' -> negated_item (Sub c) (Sub c').

(** A condition nested three deep, for the examples. *)
Definition nested_cond : cond :=
  CompoundCond
    [ Sub (SimpleCond (mkREG "a") "==" (mkVALUE 0));
      Conn "&&";
      Sub (CompoundCond
             [ Sub (SimpleCond (mkREG "b") ">" (mkREG "c"));
               Conn "||";
               Sub (CompoundCond [ Sub (SimpleCond (mkREG "d") "<=" (mkVALUE 7)) ]) ]) ].

(** The two forms of an infix instruction: compound assignment when the
    destination equals the first argument, plain assignment otherwise. *)
Definition infix_form (dest : option expr) (op : string) (a0 a1 : arg) : string :=
  if dest_eq_arg dest a0
  then dest_str dest ++ " " ++ op ++ "= " ++ arg_str a1
  else dest_str dest ++ " = " ++ arg_str a0 ++ " " ++ op ++ " " ++ arg_str a1.

(** The leading comment line of an instruction: empty without the
    ["org_inst"] annotation. *)
Definition org_prefix (comments : list (string * annot)) : result string :=
  org_line (option_map annot_str (dict_get "org_inst" comments)).

(** [x = 0x1], the instruction that the examples keep as provenance. *)
Definition assign_x_1 : inst :=
  mkInst (Some (mkREG "x")) "ASSIGN" [AExpr (mkVALUE 1)] None.

(** [x + y] into [x], carrying [assign_x_1] as its provenance. *)
Definition add_with_org : inst :=
  Inst (Some (mkREG "x")) "+" [AExpr (mkREG "x"); AExpr (mkREG "y")] None
    [("org_inst", AnInst assign_x_1)].

(** A [LIT] line carrying [assign_x_1] as its provenance. *)
Definition lit_with_org : inst :=
  Inst None "LIT" [AStr "nop"] None [("org_inst", AnInst assign_x_1)].

(** The object of [add_with_org], at address ["10"], in a heap that holds
    its annotation dict at location 0. *)
Definition add_obj : Heap.inst_obj := {|
  Heap.o_dest := Some (mkREG "x");
  Heap.o_op := "+";
  Heap.o_args := [AExpr (mkREG "x"); AExpr (mkREG "y")];
  Heap.o_addr := Some "10";
  Heap.o_comments := 0%nat
|}.

Definition add_heap : Heap.heap :=
  [ [("org_inst", AnInst assign_x_1); ("live", AnStr "x")] ].

(** The last character of the text is an ASCII digit. *)
Fixpoint ends_with_digit (s : string) : bool :=
  match s with
  | EmptyString => false
  | String c EmptyString => Py.is_ascii_digit c
  | String _ s' => ends_with_digit s'
  end.

(** The first character of the text is an ASCII digit. *)
Definition starts_with_digit (s : string) : bool :=
  match s with
  | EmptyString => false
  | String c _ => Py.is_ascii_digit c
  end.

Definition no_digit (c : ascii) : bool := negb (Py.is_ascii_digit c).

(** Runs that alternate between text without digits and non-empty digit
    runs; [is_text] tells what the first run is. *)
Fixpoint alternating (is_text : bool) (l : list string) : bool :=
  match l with
  | [] => true
  | x :: l' =>
      (if is_text then Py.all_chars no_digit x
       else Py.isdigit x && Py.all_chars Py.is_ascii_digit x)
      && alternating (negb is_text) l'
  end.

(** The scan of [split_from] stopped after a prefix: the runs completed so
    far, and the state in which the rest is read. *)
Fixpoint scan (in_digits : bool) (cur : string) (p : string)
  : list string * (bool * string) :=
  match p with
  | EmptyString => ([], (in_digits, cur))
  | String c p' =>
      if Py.is_ascii_digit c then
        if in_digits
        then scan true (cur ++ String c EmptyString) p'
        else let (l, st) := scan true (String c EmptyString) p' in (cur :: l, st)
      else
        if in_digits
        then let (l, st) := scan false (String c EmptyString) p' in (cur :: l, st)
        else scan false (cur ++ String c EmptyString) p'
  end.

(** The lines of a block, each ended by a newline. *)
Fixpoint block_text (lines : list string) : string :=
  match lines with
  | [] => EmptyString
  | t :: lines' => t ++ Py.nl ++ block_text lines'
  end.

(** The entry of one node in the dump: the predecessor line, the DFS line
    if the node is numbered, the label, the instructions of the block or
    the placeholder, and the exits. *)
Definition entry_text (cfg : Graph) (printer : inst -> result string)
  (node : string * node_info) : result string :=
  let (addr, info) := node in
  preds <- py_sorted str_lt (pred cfg addr) ;;
  body <- match val info with
          | Some b => lines <- mapM printer (items b) ;; Ok (block_text lines)
          | None => Ok ("    None" ++ Py.nl)
          end ;;
  Ok (("// Predecessors: " ++ Py.repr_list (map Py.repr_str preds) ++ Py.nl)
        ++ match dfsno info with
           | Some n => "// DFS#: " ++ Py.str_int n ++ Py.nl
           | None => EmptyString
           end
        ++ (addr ++ ":" ++ Py.nl)
        ++ body
        ++ ("Exits: "
              ++ Py.repr_list
                   (map (fun x => exit_repr (edge_cond cfg addr x) x)
                        (succ cfg addr))
              ++ Py.nl)).

(** Two addresses in natural order: the key of the second is not below
    the key of the first. *)
Definition natural_le (a b : string) : Prop :=
  exists ka kb,
    natural_sort_key a = Ok ka /\ natural_sort_key b = Ok kb
    /\ list_lt kb ka = Ok false.

(** The condition whose text is [(r1 == 0)]. *)
Definition r1_is_0 : cond :=
  SimpleCond (mkADDR "r1") "==" (VALUE EmptyString 0 10).

(** Two blocks, [blk10] stored before [blk2], and the edge from [blk2] to
    [blk10] under the condition [r1_is_0]. *)
Definition two_blocks : Graph := {|
  nodes :=
    [ ("blk10",
       {| val := Some {| bb_addr := "blk10";
                         items := [mkInst None "return" [] None] |};
          dfsno := None |});
      ("blk2",
       {| val := Some {| bb_addr := "blk2";
                         items := [mkInst (Some (mkREG "r1")) "ASSIGN"
                                     [AExpr (mkVALUE 0)] None] |};
          dfsno := Some 1 |}) ];
  pred := fun a => if (a =? "blk10")%string then ["blk2"] else ["blk1"];
  succ := fun a => if (a =? "blk2")%string then ["blk10"] else ["blk11"];
  edge_cond := fun a b =>
    if ((a =? "blk2") && (b =? "blk10"))%string then Some r1_is_0 else None
|}.

(** [needle in text]. *)
Fixpoint contains_text (needle text : string) : bool :=
  String.prefix needle text
  || match text with
     | EmptyString => false
     | String _ text' => contains_text needle text'
     end.

(** The entries of a dump one after the other, a newline before each but
    the first. *)
Fixpoint entries_text (first : bool) (entries : list string) : string :=
  match entries with
  | [] => EmptyString
  | e :: entries' =>
      (if first then EmptyString else Py.nl) ++ e ++ entries_text false entries'
  end.

(** [a] may stand before [b] in a sorted list: [b] is not smaller. *)
Definition not_after {A : Type} (lt : A -> A -> result bool) (a b : A) : Prop :=
  lt b a = Ok false.

(** A property of conditions, on an item of a compound condition. *)
Definition item_holds (P : cond -> Prop) (x : citem) : Prop :=
  match x with
  | Conn _ => True
  | Sub c => P c
  end.

(** Keys whose items alternate between text and number; [is_text] tells
    what the first item is. *)
Fixpoint aligned (is_text : bool) (k : list key) : bool :=
  match k with
  | [] => true
  | KStr _ :: k' => is_text && aligned false k'
  | KInt _ :: k' => negb is_text && aligned true k'
  end.

(** Every instruction of every block of the graph has a rendering. *)
Definition printer_returns (cfg : Graph) (printer : inst -> result string)
  : Prop :=
  forall node b i,
    In node (nodes cfg) -> val (snd node) = Some b -> In i (items b) ->
    is_ok (printer i) = true.

(** Every address of the graph has a sort key. *)
Definition addresses_have_keys (cfg : Graph) : Prop :=
  Forall (fun node => is_ok (natural_sort_key (fst node)) = true) (nodes cfg).

(** ** Hashing *)

Section Hash.
(** The built-in [hash] on str and on int, the identity hash of an object
    without [__hash__], and what the built-in does to the value that a
    [__hash__] method returns. *)
Variables (hash_str : string -> Z) (hash_int : Z -> Z)
          (hash_id : positive -> Z) (hash_norm : Z -> Z).

(** [hash(e)]: the built-in applied to [e.__hash__()].  [SFUNC] has no
    [__hash__] and no [__eq__], and keeps the hash of [object]. *)
Fixpoint expr_hash (e : expr) : Z :=
  match e with
  | REG _ name => hash_norm (hash_str name)
  | VALUE _ val _ => hash_norm (hash_int val)
  | ADDR _ addr => hash_norm (hash_str addr)
  | MEM _ type base offset =>
      hash_norm (Z.lxor (Z.lxor (hash_str type) (expr_hash base))
                        (hash_int offset))
  | SFUNC oid _ _ => hash_id oid
  end.
End Hash.

(** The superscript digits, which [isdigit] accepts and [int] refuses. *)
Definition superscript_digit (c : ascii) : bool :=
  Py.isdigit_char c && negb (Py.is_ascii_digit c).

Definition not_superscript (c : ascii) : bool := negb (superscript_digit c).

(** ** Predicates on instructions *)

(** Whether [Inst.__str__] gets past the operator dispatch without
    raising, as a function of operator and arguments alone. *)
Definition str_returns (op : string) (args : list arg) : bool :=
  if (op =? "LIT")%string then
    match args with
    | AStr _ :: _ => true
    | _ => false
    end
  else if (op =? "return")%string then true
  else if (op =? "goto")%string || (op =? "call")%string
          || (op =? "ASSIGN")%string || (op =? "SFUNC")%string
  then negb (List.length args =? 0)%nat
  else
    match op with
    | EmptyString => false
    | String c _ =>
        Py.isalpha_char c || (List.length args =? 2)%nat
    end.

(** ["dest = "] before a call, nothing without a destination. *)
Definition dest_prefix (dest : option expr) : string :=
  match dest with
  | Some d => expr_str d ++ " = "
  | None => EmptyString
  end.

(** The annotation dict reduced to its ["org_inst"] item. *)
Definition org_only (comments : list (string * annot)) : list (string * annot) :=
  match dict_get "org_inst" comments with
  | Some v => [("org_inst", v)]
  | None => []
  end.

(** [/*addr*/ ] before the diagnostic form, nothing without an address. *)
Definition addr_prefix (addr : option string) : string :=
  match addr with
  | Some a => "/*" ++ a ++ "*/ "
  | None => EmptyString
  end.

(** ** More of the condition and block classes *)

(** [CompoundCond.append(op, arg2)]: the items of the condition after
    [self.args.extend([op, arg2])]. *)
Definition CompoundCond_append (args : list citem) (op : string) (arg2 : cond)
  : list citem :=
  (args ++ [Conn op; Sub arg2])%list.

(** [BBlock.add(s)]: the block after [self.items.append(s)]. *)
Definition BBlock_add (b : BBlock) (s : inst) : BBlock :=
  {| bb_addr := bb_addr b; items := (items b ++ [s])%list |}.

(** [repr(b)] of a block. *)
Definition BBlock_repr (b : BBlock) : string :=
  "BBlock(" ++ bb_addr b ++ ")".

(** The lines of a block at an indentation, each ended by a newline. *)
Fixpoint indented_text (indent : nat) (lines : list string) : string :=
  match lines with
  | [] => EmptyString
  | t :: lines' =>
      indentation indent ++ t ++ Py.nl ++ indented_text indent lines'
  end.

(** ** The script of transformations ([apply_xform.py]) *)

Section Script.
(** The graph under transformation and the objects that [globals()] holds.
    [call f cfg] is the call [f(cfg)]; [foreach_bblock cfg f] is the helper
    of that name, imported from the module of transformations.  Both work
    on the graph in place and may raise: they return the outcome and the
    graph as it then is. *)
Variables (Cfg func : Type).
Variable call : func -> Cfg -> result unit * Cfg.
Variable foreach_bblock : Cfg -> func -> result unit * Cfg.

(** One turn of the loop over [p.script] in [handle_file]: the function is
    looked up in [globals()] before the kind of the entry is examined. *)
Definition apply_entry (globals : list (string * func))
  (entry : string * string) (cfg : Cfg) : result unit * Cfg :=
  let (type, xform) := entry in
  match dict_getitem xform globals with
  | Raise e => (Raise e, cfg)
  | Ok f =>
      if (type =? "xform:")%string then call f cfg
      else if (type =? "xform_bblock:")%string then foreach_bblock cfg f
      else (Raise AssertionError, cfg)
  end.

(** The loop over [p.script]. *)
Fixpoint apply_script (globals : list (string * func))
  (script : list (string * string)) (cfg : Cfg) : result unit * Cfg :=
  match script with
  | [] => (Ok tt, cfg)
  | entry :: rest =>
      match apply_entry globals entry cfg with
      | (Ok _, cfg') => apply_script globals rest cfg'
      | (Raise e, cfg') => (Raise e, cfg')
      end
  end.
End Script.

(** A character of the ASCII range. *)
Definition is_ascii (c : ascii) : bool := (Py.code c <? 128)%N.

(** The default limit of [int] on the number of digits of a text. *)
Definition int_max_str_digits : nat := 4300.

(** * Properties *)

(** ** Expressions: equality *)

Lemma expr_eq_refl (e : expr) : expr_eq e e = true.
Proof.
  induction e; simpl.
  - apply String.eqb_refl.
  - apply Z.eqb_refl.
  - apply String.eqb_refl.
  - rewrite String.eqb_refl, IHe, Z.eqb_refl. reflexivity.
  - apply Pos.eqb_refl.
Qed.

Lemma expr_eq_type_name (e1 e2 : expr) :
  expr_eq e1 e2 = true -> type_name e1 = type_name e2.
Proof.
  destruct e1, e2; simpl; intros H; try discriminate; reflexivity.
Qed.

Lemma expr_eq_same_fields (e1 e2 : expr) :
  sfunc_free e1 = true -> expr_eq e1 e2 = true -> same_fields e1 e2.
Proof.
  revert e2.
  induction e1 as [c n|c v b|c a|c t b IH o|i c n]; intros e2 Hfree Heq;
    destruct e2; simpl in *; try discriminate.
  - apply String.eqb_eq in Heq. subst. constructor.
  - apply Z.eqb_eq in Heq. subst. constructor.
  - apply String.eqb_eq in Heq. subst. constructor.
  - apply andb_true_iff in Heq. destruct Heq as [Heq Ho].
    apply andb_true_iff in Heq. destruct Heq as [Ht Hb].
    apply String.eqb_eq in Ht. apply Z.eqb_eq in Ho. subst.
    constructor. apply IH; assumption.
Qed.

Lemma same_fields_expr_eq (e1 e2 : expr) :
  same_fields e1 e2 -> expr_eq e1 e2 = true.
Proof.
  induction 1; simpl.
  - apply String.eqb_refl.
  - apply Z.eqb_refl.
  - apply String.eqb_refl.
  - rewrite String.eqb_refl, IHsame_fields, Z.eqb_refl. reflexivity.
Qed.

(** C1, as amended.  Two expressions of different classes are never equal,
    whatever their text.  On expressions without [SFUNC] objects, [==] holds
    exactly when both are of the same class and the compared fields agree:
    name for [REG], numeric value for [VALUE] (the display base is not
    compared), address text for [ADDR], and type, base and offset for
    [MEM]; the comment tag is not compared. *)
Theorem expr_eq_compared_fields (e1 e2 : expr) :
  (type_name e1 <> type_name e2 -> expr_eq e1 e2 = false)
  /\ (sfunc_free e1 = true -> sfunc_free e2 = true ->
      (expr_eq e1 e2 = true <-> same_fields e1 e2)).
Proof.
  split.
  - intros Hne. destruct (expr_eq e1 e2) eqn:E; [|reflexivity].
    exfalso. apply Hne. apply expr_eq_type_name. exact E.
  - intros H1 _. split.
    + apply expr_eq_same_fields. exact H1.
    + apply same_fields_expr_eq.
Qed.

(** The amended statement at two values that differ in the display base,
    and at a register and an address with the same text. *)
Lemma expr_eq_compared_fields_witness :
  expr_eq (mkREG "r1") (mkADDR "r1") = false
  /\ (expr_eq (VALUE EmptyString 16 16) (VALUE EmptyString 16 10) = true
      <-> same_fields (VALUE EmptyString 16 16) (VALUE EmptyString 16 10)).
Proof.
  split.
  - apply (proj1 (expr_eq_compared_fields (mkREG "r1") (mkADDR "r1"))).
    simpl. discriminate.
  - apply (proj2 (expr_eq_compared_fields (VALUE EmptyString 16 16)
                    (VALUE EmptyString 16 10))); reflexivity.
Defined.

(** C1 as stated fails: the values 16 shown in base 16 and in base 10 are
    equal for the code, though their display-base fields differ. *)
Lemma expr_eq_not_all_fields :
  expr_eq (VALUE EmptyString 16 16) (VALUE EmptyString 16 10) = true
  /\ all_fields_eq (VALUE EmptyString 16 16) (VALUE EmptyString 16 10) = false.
Proof. split; reflexivity. Qed.

(** Two [SFUNC] objects with the same name are not equal unless they are
    the same object. *)
Lemma SFUNC_eq_is_identity (id1 id2 : positive) (c1 c2 n1 n2 : string) :
  expr_eq (SFUNC id1 c1 n1) (SFUNC id2 c2 n2) = Pos.eqb id1 id2.
Proof. reflexivity. Qed.

(** ** Expressions: the comment tag in the renderings *)

Lemma comment_prefix_str (e : expr) :
  (forall i c n, e <> SFUNC i c n) ->
  exists rest, expr_str e = comment_of e ++ rest.
Proof.
  intros H. destruct e; simpl.
  - eexists; reflexivity.
  - eexists; reflexivity.
  - eexists; reflexivity.
  - destruct (offset =? 0)%Z; eexists; reflexivity.
  - exfalso. eapply H. reflexivity.
Qed.

Lemma comment_prefix_repr (e : expr) :
  (forall i c n, e <> SFUNC i c n) ->
  exists rest, expr_repr e = comment_of e ++ rest.
Proof.
  intros H. destruct e; simpl.
  - eexists; reflexivity.
  - eexists; reflexivity.
  - eexists; reflexivity.
  - destruct (offset =? 0)%Z; eexists; reflexivity.
  - exfalso. eapply H. reflexivity.
Qed.

(** C9 at an [SFUNC] carrying the tag ["/*new*/"]: neither rendering starts
    with the tag, and both are what they are for the untagged object. *)
Theorem SFUNC_renderings_drop_comment :
  let f := SFUNC 1 "/*new*/" "memcpy" in
  comment_of f = "/*new*/"
  /\ expr_str f = "memcpy"
  /\ expr_repr f = "(SFUNC)memcpy"
  /\ starts_with (comment_of f) (expr_str f) = false
  /\ starts_with (comment_of f) (expr_repr f) = false
  /\ (forall i c n, expr_str (SFUNC i c n) = expr_str (mkSFUNC i n)
                    /\ expr_repr (SFUNC i c n) = expr_repr (mkSFUNC i n)).
Proof. repeat split. Qed.

(** ** Instructions: equality *)

Lemma arg_eq_refl (a : arg) : arg_eq a a = true.
Proof.
  destruct a; simpl; [apply expr_eq_refl | apply String.eqb_refl].
Qed.

Lemma args_eq_refl (l : list arg) : args_eq l l = true.
Proof.
  induction l as [|a l IH]; simpl; [reflexivity|].
  rewrite arg_eq_refl. exact IH.
Qed.

Lemma dest_eq_refl (d : option expr) : dest_eq d d = true.
Proof. destruct d; simpl; [apply expr_eq_refl | reflexivity]. Qed.

(** C3.  Two instructions with the same operator, destination and
    arguments are equal whatever their addresses and annotations; and in a
    comparison with any other instruction, the address and the annotations
    of either side do not change the answer. *)
Theorem inst_eq_ignores_addr_and_comments
  (dest : option expr) (op : string) (args : list arg)
  (addr1 addr2 : option string) (comments1 comments2 : list (string * annot)) :
  inst_eq (Inst dest op args addr1 comments1)
          (Inst dest op args addr2 comments2) = true
  /\ (forall other : inst,
         inst_eq (Inst dest op args addr1 comments1) other
         = inst_eq (Inst dest op args addr2 comments2) other
         /\ inst_eq other (Inst dest op args addr1 comments1)
            = inst_eq other (Inst dest op args addr2 comments2))
  /\ (forall self other : inst,
         inst_eq self other
         = ((inst_op self =? inst_op other)%string
            && dest_eq (inst_dest self) (inst_dest other)
            && args_eq (inst_args self) (inst_args other))).
Proof.
  split; [|split].
  - unfold inst_eq. simpl.
    rewrite String.eqb_refl, dest_eq_refl, args_eq_refl. reflexivity.
  - intros other. split; reflexivity.
  - reflexivity.
Qed.

(** ** Conditions: negation *)

(** Induction on conditions, with the hypothesis for every sub-condition of
    a compound. *)
Lemma cond_nested_ind (P : cond -> Prop) :
  (forall a op b, P (SimpleCond a op b)) ->
  (forall args, Forall (item_holds P) args -> P (CompoundCond args)) ->
  forall c, P c.
Proof.
  intros Hsimple Hcompound.
  fix IH 1.
  intros [a op b | args].
  - apply Hsimple.
  - apply Hcompound.
    induction args as [|x args IHargs].
    + constructor.
    + constructor; [|exact IHargs].
      destruct x as [s | c]; simpl; [exact I | apply IH].
Qed.

Lemma neg_compound (args : list citem) :
  neg (CompoundCond args) = (l <- mapM neg_item args ;; Ok (CompoundCond l)).
Proof. reflexivity. Qed.

Lemma wf_compound (args : list citem) :
  wf_cond (CompoundCond args) = forallb wf_item args.
Proof. reflexivity. Qed.

(** Case analysis on the first test [k =? op] of a table lookup. *)
Ltac case_key op :=
  match goal with
  | |- context [String.eqb ?k op] =>
      destruct (String.eqb_spec k op) as [<- | _]
  end.

Lemma SimpleCond_NEG_involutive (op op' : string) :
  dict_get op SimpleCond_NEG = Some op' ->
  dict_get op' SimpleCond_NEG = Some op.
Proof.
  unfold SimpleCond_NEG. cbn [dict_get].
  repeat (case_key op;
          [intros H; injection H as <-; reflexivity|]).
  intros H; discriminate H.
Qed.

Lemma CompoundCond_NEG_involutive (s s' : string) :
  dict_get s CompoundCond_NEG = Some s' ->
  dict_get s' CompoundCond_NEG = Some s.
Proof.
  unfold CompoundCond_NEG. cbn [dict_get].
  repeat (case_key s;
          [intros H; injection H as <-; reflexivity|]).
  intros H; discriminate H.
Qed.

Lemma CompoundCond_NEG_swaps (s s' : string) :
  dict_get s CompoundCond_NEG = Some s' ->
  negated_item (Conn s) (Conn s').
Proof.
  unfold CompoundCond_NEG. cbn [dict_get].
  repeat (case_key s;
          [intros H; injection H as <-; constructor|]).
  intros H; discriminate H.
Qed.

Lemma dict_contains_get {V : Type} (k : string) (d : list (string * V)) :
  dict_contains k d = true -> exists v, dict_get k d = Some v.
Proof.
  unfold dict_contains. destruct (dict_get k d) as [v|]; [|discriminate].
  intros _. exists v. reflexivity.
Qed.

Lemma dict_get_contains {V : Type} (k : string) (d : list (string * V)) (v : V) :
  dict_get k d = Some v -> dict_contains k d = true.
Proof. unfold dict_contains. intros ->. reflexivity. Qed.

(** Negation of a well-formed condition returns, the result is well formed,
    and negating it gives the condition back. *)
Lemma neg_neg (c : cond) :
  wf_cond c = true ->
  exists c', neg c = Ok c' /\ wf_cond c' = true /\ neg c' = Ok c.
Proof.
  induction c as [a op b | args IH] using cond_nested_ind; intros Hwf.
  - simpl in Hwf. destruct (dict_contains_get _ _ Hwf) as [op' Hop].
    exists (SimpleCond a op' b).
    pose proof (SimpleCond_NEG_involutive _ _ Hop) as Hback.
    simpl. unfold dict_getitem. rewrite Hop, Hback. simpl.
    repeat split. eapply dict_get_contains. exact Hback.
  - rewrite wf_compound in Hwf.
    assert (exists l, mapM neg_item args = Ok l
                      /\ forallb wf_item l = true
                      /\ mapM neg_item l = Ok args) as (l & Hl & Hwfl & Hback).
    { induction IH as [|x args Hx _ IHargs].
      - exists []. repeat split.
      - simpl in Hwf. apply andb_true_iff in Hwf. destruct Hwf as [Hwx Hwargs].
        destruct (IHargs Hwargs) as (l & Hl & Hwfl & Hback).
        destruct x as [s | c]; simpl in Hx, Hwx.
        + destruct (dict_contains_get _ _ Hwx) as [s' Hs].
          pose proof (CompoundCond_NEG_involutive _ _ Hs) as Hs'.
          exists (Conn s' :: l). simpl. unfold dict_getitem.
          rewrite Hs, Hs', Hl, Hback, Hwfl. simpl.
          rewrite (dict_get_contains _ _ _ Hs'). repeat split.
        + destruct (Hx Hwx) as (c' & Hc & Hwc & Hc').
          exists (Sub c' :: l). simpl.
          rewrite Hc, Hc', Hl, Hback, Hwfl, Hwc. repeat split. }
    exists (CompoundCond l). rewrite !neg_compound, wf_compound, Hl, Hback.
    repeat split. exact Hwfl.
Qed.

Lemma mapM_neg_item_Forall2 (args l : list citem) :
  mapM neg_item args = Ok l -> Forall2 negated_item args l.
Proof.
  revert l. induction args as [|x args IH]; intros l H; simpl in H.
  - injection H as <-. constructor.
  - destruct (neg_item x) as [y|] eqn:Hx; simpl in H; [|discriminate].
    destruct (mapM neg_item args) as [ys|] eqn:Hargs; simpl in H; [|discriminate].
    injection H as <-. constructor; [|apply IH; reflexivity].
    destruct x as [s | c]; simpl in Hx.
    + unfold dict_getitem in Hx.
      destruct (dict_get s CompoundCond_NEG) as [s'|] eqn:Hs; simpl in Hx;
        [|discriminate].
      injection Hx as <-. apply CompoundCond_NEG_swaps. exact Hs.
    + destruct (neg c) as [c'|] eqn:Hc; simpl in Hx; [|discriminate].
      injection Hx as <-. constructor. exact Hc.
Qed.

(** C2.  For a condition [c] of the data model, simple or compound at any
    depth, [c.neg()] returns a condition whose own negation is [c].  On a
    simple condition it replaces the operator by its entry in the table
    (== and !=, > and <=, < and >= are exchanged) and keeps both operands;
    on a compound one it returns a compound whose items are, in the same
    order, the swapped connectives and the negated sub-conditions. *)
Theorem neg_involutive (c : cond) :
  wf_cond c = true ->
  exists c',
    neg c = Ok c' /\ neg c' = Ok c
    /\ match c with
       | SimpleCond arg1 op arg2 =>
           exists op',
             c' = SimpleCond arg1 op' arg2
             /\ In (op, op') [ ("==", "!="); ("!=", "=="); (">", "<=");
                               ("<=", ">"); ("<", ">="); (">=", "<") ]
       | CompoundCond args =>
           exists args',
             c' = CompoundCond args' /\ Forall2 negated_item args args'
       end.
Proof.
  intros Hwf. destruct (neg_neg c Hwf) as (c' & Hc & _ & Hback).
  exists c'. split; [exact Hc|]. split; [exact Hback|].
  destruct c as [a op b | args].
  - simpl in Hc. unfold dict_getitem in Hc.
    destruct (dict_get op SimpleCond_NEG) as [op'|] eqn:Hop; simpl in Hc;
      [|discriminate].
    injection Hc as <-. exists op'. split; [reflexivity|].
    revert Hop. unfold SimpleCond_NEG. cbn [dict_get].
    repeat (case_key op;
            [intros H; injection H as <-; simpl; tauto|]).
    intros H; discriminate H.
  - rewrite neg_compound in Hc.
    destruct (mapM neg_item args) as [l|] eqn:Hl; simpl in Hc; [|discriminate].
    injection Hc as <-. exists l. split; [reflexivity|].
    apply mapM_neg_item_Forall2. exact Hl.
Qed.

(** The statement at a condition nested three deep. *)
Lemma neg_involutive_witness :
  exists c',
    neg nested_cond = Ok c' /\ neg c' = Ok nested_cond
    /\ exists args',
         c' = CompoundCond args'
         /\ Forall2 negated_item
              [ Sub (SimpleCond (mkREG "a") "==" (mkVALUE 0));
                Conn "&&";
                Sub (CompoundCond
                       [ Sub (SimpleCond (mkREG "b") ">" (mkREG "c"));
                         Conn "||";
                         Sub (CompoundCond
                                [ Sub (SimpleCond (mkREG "d") "<=" (mkVALUE 7)) ]) ]) ]
              args'.
Proof.
  apply (neg_involutive nested_cond). reflexivity.
Defined.

(** ** Instructions: the canonical rendering *)

Lemma append_assoc (a b c : string) : (a ++ b) ++ c = a ++ b ++ c.
Proof. induction a as [|x a IH]; simpl; [reflexivity | now rewrite IH]. Qed.

Lemma append_nil_r (a : string) : a ++ EmptyString = a.
Proof. induction a as [|x a IH]; simpl; [reflexivity | now rewrite IH]. Qed.

Lemma dict_get_map_values {V W : Type} (f : V -> W) (k : string)
  (d : list (string * V)) :
  dict_get k (map (fun kv => (fst kv, f (snd kv))) d)
  = option_map f (dict_get k d).
Proof.
  induction d as [|[k' v] d IH]; simpl; [reflexivity|].
  destruct (k' =? k)%string; [reflexivity | exact IH].
Qed.

(** [Inst.__str__] is its body applied to the rendering of the provenance
    annotation. *)
Lemma Inst_str_unfold (dest : option expr) (op : string) (args : list arg)
  (addr : option string) (comments : list (string * annot)) :
  Inst_str (Inst dest op args addr comments)
  = Inst_str_body dest op args
      (option_map annot_str (dict_get "org_inst" comments)).
Proof.
  simpl. f_equal. rewrite <- dict_get_map_values.
  f_equal. apply map_ext. intros [k [j | t]]; reflexivity.
Qed.

(** An operator that begins with a non-letter is none of the operators
    with a rendering of their own. *)
Lemma infix_not_special (c : ascii) (rest : string) :
  Py.isalpha_char c = false ->
  (String c rest =? "LIT")%string = false
  /\ (String c rest =? "return")%string = false
  /\ (String c rest =? "goto")%string = false
  /\ (String c rest =? "call")%string = false
  /\ (String c rest =? "ASSIGN")%string = false
  /\ (String c rest =? "SFUNC")%string = false.
Proof.
  intros Hc.
  repeat split;
    match goal with
    | |- (?a =? ?b)%string = false =>
        destruct (String.eqb_spec a b) as [E | _]; [|reflexivity];
        injection E as -> _; discriminate Hc
    end.
Qed.

Lemma Inst_str_body_infix (dest : option expr) (c : ascii) (rest : string)
  (args : list arg) (org : option (result string)) :
  Py.isalpha_char c = false ->
  Inst_str_body dest (String c rest) args org
  = (s <- org_line org ;;
     match args with
     | [a0; a1] => Ok (s ++ infix_form dest (String c rest) a0 a1)
     | _ => Raise AssertionError
     end).
Proof.
  intros Hc. destruct (infix_not_special c rest Hc) as (H1 & H2 & H3 & H4 & H5 & _).
  unfold Inst_str_body. rewrite H1, H2, H3, H4, H5, Hc. simpl.
  destruct (org_line org) as [s|e]; simpl; [|reflexivity].
  destruct args as [|a0 [|a1 [|a2 args]]]; simpl; try reflexivity.
  unfold infix_form. destruct (dest_eq_arg dest a0); reflexivity.
Qed.

(** C5.  For an instruction whose operator begins with a non-letter and
    which has exactly two arguments, the canonical rendering is
    [dest op= arg1] when [dest == arg0] and [dest = arg0 op arg1]
    otherwise.  The form comes after the leading provenance comment line
    when the instruction carries that annotation, and is the whole rendering
    when it does not. *)
Theorem infix_rendering (dest : option expr) (c : ascii) (rest : string)
  (a0 a1 : arg) (addr : option string) (comments : list (string * annot)) :
  Py.isalpha_char c = false ->
  let op := String c rest in
  let form :=
    if dest_eq_arg dest a0
    then dest_str dest ++ " " ++ op ++ "= " ++ arg_str a1
    else dest_str dest ++ " = " ++ arg_str a0 ++ " " ++ op ++ " " ++ arg_str a1 in
  Inst_str (Inst dest op [a0; a1] addr comments)
  = (s <- org_prefix comments ;; Ok (s ++ form))
  /\ (dict_get "org_inst" comments = None ->
      Inst_str (Inst dest op [a0; a1] addr comments) = Ok form).
Proof.
  intros Hc op form. unfold op. rewrite Inst_str_unfold, Inst_str_body_infix by exact Hc.
  unfold org_prefix. split; [reflexivity|].
  intros ->. reflexivity.
Qed.

(** The statement at [x + y] into [x] and at [y + z] into [x], over
    symbolic addresses: they render as [x += y] and [x = y + z]. *)
Lemma infix_rendering_witness :
  Inst_str (mkInst (Some (mkADDR "x")) "+"
              [AExpr (mkADDR "x"); AExpr (mkADDR "y")] None) = Ok "x += y"
  /\ Inst_str (mkInst (Some (mkADDR "x")) "+"
                 [AExpr (mkADDR "y"); AExpr (mkADDR "z")] None) = Ok "x = y + z".
Proof.
  split.
  - exact (proj2 (infix_rendering (Some (mkADDR "x")) "+"%char EmptyString
                    (AExpr (mkADDR "x")) (AExpr (mkADDR "y")) None []
                    eq_refl) eq_refl).
  - exact (proj2 (infix_rendering (Some (mkADDR "x")) "+"%char EmptyString
                    (AExpr (mkADDR "y")) (AExpr (mkADDR "z")) None []
                    eq_refl) eq_refl).
Defined.

(** With its provenance, [add_with_org] renders as two lines: the comment
    line of the annotation, then the form [$x += $y]. *)
Lemma infix_rendering_with_provenance :
  Inst_str add_with_org = Ok ("// $x = 0x1" ++ Py.nl ++ "$x += $y")
  /\ Inst_str add_with_org
     <> Ok (infix_form (Some (mkREG "x")) "+" (AExpr (mkREG "x")) (AExpr (mkREG "y"))).
Proof. split; [reflexivity | discriminate]. Qed.

(** Whatever the operator, except [LIT], a rendering that returns starts
    with the comment line. *)
Lemma Inst_str_body_prefix (dest : option expr) (op : string) (args : list arg)
  (org : option (result string)) (s0 s : string) :
  (op =? "LIT")%string = false ->
  org_line org = Ok s0 ->
  Inst_str_body dest op args org = Ok s ->
  exists rest, s = s0 ++ rest.
Proof.
  intros Hlit Horg. unfold Inst_str_body. rewrite Hlit, Horg. simpl.
  destruct (op =? "return")%string.
  { intros H. injection H as <-. eexists; reflexivity. }
  destruct ((op =? "goto")%string || (op =? "call")%string).
  { destruct (getitem args 0) as [a0|]; simpl; intros H; [|discriminate].
    injection H as <-. eexists; reflexivity. }
  destruct (op =? "ASSIGN")%string.
  { destruct (getitem args 0) as [a0|]; simpl; intros H; [|discriminate].
    injection H as <-. eexists; reflexivity. }
  destruct op as [|c rest]; [discriminate|].
  destruct (negb (Py.isalpha_char c)).
  - destruct (negb (List.length args =? 2)%nat); [discriminate|].
    destruct (getitem args 0) as [a0|]; simpl; [|discriminate].
    destruct (getitem args 1) as [a1|]; simpl; [|discriminate].
    destruct (dest_eq_arg dest a0); intros H; injection H as <-;
      eexists; reflexivity.
  - destruct (String c rest =? "SFUNC")%string.
    + destruct args as [|a0 l]; [discriminate|].
      intros H; injection H as <-.
      destruct dest; [rewrite !append_assoc|]; eexists; reflexivity.
    + intros H; injection H as <-.
      destruct dest; [rewrite !append_assoc|]; eexists; reflexivity.
Qed.

(** C6, as amended.  For an instruction with the ["org_inst"] annotation
    and an operator other than [LIT], a canonical rendering starts with the
    line ["// " + str(annotation)]; for [return] it is that line followed by
    the keyword; a [LIT] instruction renders as its argument alone, with or
    without the annotation. *)
Theorem org_inst_leading_comment (dest : option expr) (op : string)
  (args : list arg) (addr : option string) (comments : list (string * annot))
  (v : annot) :
  dict_get "org_inst" comments = Some v ->
  (op <> "LIT" ->
   forall s, Inst_str (Inst dest op args addr comments) = Ok s ->
             exists t rest, annot_str v = Ok t
                            /\ s = "// " ++ t ++ Py.nl ++ rest)
  /\ Inst_str (Inst dest "return" args addr comments)
     = (t <- annot_str v ;; Ok ("// " ++ t ++ Py.nl ++ "return"))
  /\ Inst_str (Inst dest "LIT" args addr comments)
     = Inst_str (Inst dest "LIT" args addr []).
Proof.
  intros Hv. split; [|split].
  - intros Hop s Hs. rewrite Inst_str_unfold, Hv in Hs. simpl in Hs.
    destruct (annot_str v) as [t|e] eqn:Ht.
    + destruct (Inst_str_body_prefix dest op args (Some (Ok t))
                  ("// " ++ t ++ Py.nl) s) as [rest ->].
      * destruct (String.eqb_spec op "LIT"); [contradiction | reflexivity].
      * reflexivity.
      * exact Hs.
      * exists t, rest. split; [reflexivity|].
        rewrite !append_assoc. reflexivity.
    + exfalso. unfold Inst_str_body in Hs.
      destruct (String.eqb_spec op "LIT"); [contradiction|].
      simpl in Hs. discriminate Hs.
  - rewrite Inst_str_unfold, Hv. simpl. unfold Inst_str_body. simpl.
    destruct (annot_str v) as [t|e]; simpl; [|reflexivity].
    rewrite !append_assoc. reflexivity.
  - rewrite !Inst_str_unfold. reflexivity.
Qed.

(** The statement at a [return] that carries its provenance. *)
Lemma org_inst_leading_comment_witness :
  exists t rest,
    annot_str (AnInst assign_x_1) = Ok t
    /\ "// $x = 0x1" ++ Py.nl ++ "return" = "// " ++ t ++ Py.nl ++ rest.
Proof.
  apply (proj1 (org_inst_leading_comment None "return" [] None
                  [("org_inst", AnInst assign_x_1)] (AnInst assign_x_1)
                  eq_refl)).
  - discriminate.
  - reflexivity.
Defined.

(** C6 as stated fails on [LIT]: the rendering of [lit_with_org] is the
    text of the line, with no comment line before it. *)
Lemma lit_has_no_leading_comment :
  dict_contains "org_inst" (inst_comments lit_with_org) = true
  /\ Inst_str lit_with_org = Ok "nop"
  /\ starts_with "//" "nop" = false.
Proof. repeat split. Qed.

(** C8.  For an operator that begins with a non-letter and a number of
    arguments other than two, the canonical rendering raises: the assertion
    fails as soon as the comment line is built, and nothing is returned. *)
Theorem infix_wrong_arity_raises (dest : option expr) (c : ascii)
  (rest : string) (args : list arg) (addr : option string)
  (comments : list (string * annot)) :
  Py.isalpha_char c = false ->
  List.length args <> 2%nat ->
  Inst_str (Inst dest (String c rest) args addr comments)
  = (_ <- org_prefix comments ;; Raise AssertionError)
  /\ is_ok (Inst_str (Inst dest (String c rest) args addr comments)) = false
  /\ (dict_get "org_inst" comments = None ->
      Inst_str (Inst dest (String c rest) args addr comments)
      = Raise AssertionError).
Proof.
  intros Hc Hlen. rewrite Inst_str_unfold, Inst_str_body_infix by exact Hc.
  unfold org_prefix.
  assert (forall s : string,
             match args with
             | [a0; a1] => Ok (s ++ infix_form dest (String c rest) a0 a1)
             | _ => Raise AssertionError
             end = Raise AssertionError) as Hargs.
  { intros s. destruct args as [|a0 [|a1 [|a2 l]]]; try reflexivity.
    exfalso. apply Hlen. reflexivity. }
  repeat split.
  - destruct (org_line _) as [s|e]; simpl; [apply Hargs | reflexivity].
  - destruct (org_line _) as [s|e]; simpl; [rewrite Hargs|]; reflexivity.
  - intros ->. simpl. apply (Hargs EmptyString).
Qed.

(** The statement at a unary minus and at an addition of three. *)
Lemma infix_wrong_arity_raises_witness :
  Inst_str (mkInst (Some (mkREG "x")) "-" [AExpr (mkREG "y")] None)
  = Raise AssertionError
  /\ Inst_str (mkInst (Some (mkREG "x")) "+"
                 [AExpr (mkREG "a"); AExpr (mkREG "b"); AExpr (mkREG "c")] None)
     = Raise AssertionError.
Proof.
  split.
  - apply (proj2 (proj2 (infix_wrong_arity_raises (Some (mkREG "x")) "-"%char
                           EmptyString [AExpr (mkREG "y")] None []
                           eq_refl ltac:(discriminate)))).
    reflexivity.
  - apply (proj2 (proj2 (infix_wrong_arity_raises (Some (mkREG "x")) "+"%char
                           EmptyString
                           [AExpr (mkREG "a"); AExpr (mkREG "b"); AExpr (mkREG "c")]
                           None [] eq_refl ltac:(discriminate)))).
    reflexivity.
Defined.

(** ** [Inst.__repr__] leaves the instruction as it was *)

Lemma dict_remove_map_values {V W : Type} (f : V -> W) (k : string)
  (d : list (string * V)) :
  dict_remove k (map (fun kv => (fst kv, f (snd kv))) d)
  = map (fun kv => (fst kv, f (snd kv))) (dict_remove k d).
Proof.
  induction d as [|[k' v] d IH]; simpl; [reflexivity|].
  destruct (k' =? k)%string; simpl; now rewrite IH.
Qed.

Lemma dict_remove_absent {V : Type} (k : string) (d : list (string * V)) :
  dict_get k d = None -> dict_remove k d = d.
Proof.
  induction d as [|[k' v] d IH]; simpl; [reflexivity|].
  destruct (k' =? k)%string; [discriminate|].
  intros H. now rewrite IH.
Qed.

Lemma mapM_map {A B C : Type} (g : A -> B) (f : B -> result C) (l : list A) :
  mapM f (map g l) = mapM (fun x => f (g x)) l.
Proof.
  induction l as [|x l IH]; simpl; [reflexivity | now rewrite IH].
Qed.

(** [Inst.__repr__] as a function of the value is its body applied to the
    renderings of the annotations. *)
Lemma Inst_repr_unfold (dest : option expr) (op : string) (args : list arg)
  (addr : option string) (comments : list (string * annot)) :
  Inst_repr (Inst dest op args addr comments)
  = Inst_repr_body dest op args addr
      (option_map annot_str (dict_get "org_inst" comments))
      (map (fun kv => (fst kv, annot_repr (snd kv)))
           (dict_remove "org_inst" comments)).
Proof.
  simpl. rewrite <- dict_remove_map_values, <- dict_get_map_values.
  f_equal.
  - f_equal. apply map_ext. intros [k [j | t]]; reflexivity.
  - f_equal. apply map_ext. intros [k [j | t]]; reflexivity.
Qed.

Lemma nth_new (h : Heap.heap) (d : Heap.dict) :
  nth (List.length h) (h ++ [d])%list [] = d.
Proof. rewrite app_nth2, Nat.sub_diag by lia. reflexivity. Qed.

Lemma update_new (h : Heap.heap) (d d' : Heap.dict) :
  Heap.update (List.length h) d' (h ++ [d])%list = (h ++ [d'])%list.
Proof. induction h as [|x h IH]; simpl; [reflexivity | now rewrite IH]. Qed.

(** The part of [__repr__] after the comment line, case by case. *)
Ltac repr_tail self :=
  destruct (Heap.o_dest self);
  [| destruct (Heap.o_op self =? "LIT")%string;
     [destruct (Heap.o_args self) as [|[?|?] ?]|]];
  cbv beta iota; cbn [bind]; try reflexivity;
  rewrite nth_new, mapM_map; cbv beta; cbn [fst snd];
  match goal with
  | |- context [mapM _ ?l] =>
      destruct l as [|? ?]; [reflexivity|]; cbn [map];
      match goal with
      | |- context [mapM ?f ?l'] => destruct (mapM f l'); reflexivity
      end
  end.

(** Running [__repr__] returns the text of the pure function and adds one
    dict to the heap, the copy. *)
Lemma Inst_repr_run (h : Heap.heap) (self : Heap.inst_obj) :
  let d := nth (Heap.o_comments self) h [] in
  Heap.Inst_repr self h
  = (Inst_repr (Heap.load h self), (h ++ [dict_remove "org_inst" d])%list).
Proof.
  intros d. unfold Heap.load. fold d. rewrite Inst_repr_unfold.
  cbv [Heap.Inst_repr Heap.copy Heap.contains Heap.pop Heap.read Heap.alloc
       Heap.write Heap.bindM Heap.ret Heap.raise Heap.lift].
  fold d. rewrite !nth_new. unfold dict_contains, Inst_repr_body.
  destruct (dict_get "org_inst" d) as [v|] eqn:Hv; cbn [option_map org_line].
  - rewrite !nth_new, Hv. cbv beta iota. rewrite update_new.
    destruct (annot_str v) as [t|e]; cbn [bind]; [|reflexivity].
    repr_tail self.
  - rewrite (dict_remove_absent _ _ Hv). cbn [bind].
    repr_tail self.
Qed.

(** C10.  [repr] of an instruction whose annotation dict is in the heap
    changes no dict that was there, the instruction's own included (the
    ["org_inst"] item is popped from a copy, which is the one dict added);
    the object has the same value afterwards, the text is a function of that
    value, and a second [repr] returns the same text. *)
Theorem Inst_repr_does_not_mutate (h : Heap.heap) (self : Heap.inst_obj) :
  (Heap.o_comments self < List.length h)%nat ->
  let (r, h') := Heap.Inst_repr self h in
  nth (Heap.o_comments self) h' [] = nth (Heap.o_comments self) h []
  /\ (exists copy, h' = (h ++ [copy])%list)
  /\ Heap.load h' self = Heap.load h self
  /\ r = Inst_repr (Heap.load h self)
  /\ fst (Heap.Inst_repr self h') = r.
Proof.
  intros Hl. rewrite Inst_repr_run.
  set (d := nth (Heap.o_comments self) h []).
  assert (nth (Heap.o_comments self) (h ++ [dict_remove "org_inst" d])%list []
          = d) as Hsame.
  { rewrite app_nth1 by exact Hl. reflexivity. }
  assert (Heap.load (h ++ [dict_remove "org_inst" d])%list self
          = Heap.load h self) as Hload.
  { unfold Heap.load. rewrite Hsame. reflexivity. }
  repeat split.
  - exact Hsame.
  - eexists. reflexivity.
  - exact Hload.
  - rewrite Inst_repr_run. cbn [fst]. rewrite Hload. reflexivity.
Qed.

(** The statement at [add_obj]: the text, and the ["org_inst"] item still
    in the instruction's dict. *)
Lemma Inst_repr_does_not_mutate_witness :
  let (r, h') := Heap.Inst_repr add_obj add_heap in
  nth 0 h' [] = [("org_inst", AnInst assign_x_1); ("live", AnStr "x")]
  /\ (exists copy, h' = (add_heap ++ [copy])%list)
  /\ Heap.load h' add_obj = Heap.load add_heap add_obj
  /\ r = Inst_repr (Heap.load add_heap add_obj)
  /\ fst (Heap.Inst_repr add_obj h') = r.
Proof.
  apply (Inst_repr_does_not_mutate add_heap add_obj). simpl. lia.
Defined.

(** The text of [add_obj], and the heap after rendering it: the copy, at
    location 1, has lost the ["org_inst"] item, the original has not. *)
Example Inst_repr_add_obj :
  Heap.Inst_repr add_obj add_heap
  = (Ok ("// $x = 0x1" ++ Py.nl
           ++ "/*10*/ $x = +([REG(x), REG(y)]) # {'live': 'x'}"),
     [ [("org_inst", AnInst assign_x_1); ("live", AnStr "x")];
       [("live", AnStr "x")] ]).
Proof. reflexivity. Qed.

(** ** The natural sort key and the order on registers *)

Lemma split_from_nonempty (b : bool) (cur s : string) :
  split_from b cur s <> [].
Proof.
  revert b cur. induction s as [|c s IH]; intros b cur; simpl.
  - destruct b; discriminate.
  - destruct (Py.is_ascii_digit c), b; try discriminate; apply IH.
Qed.

Lemma join_cons_nonempty (x : string) (l : list string) :
  l <> [] -> Py.join EmptyString (x :: l) = x ++ Py.join EmptyString l.
Proof. destruct l; [congruence | reflexivity]. Qed.

(** The runs of the split, put together, are the text. *)
Lemma join_split_from (b : bool) (cur s : string) :
  Py.join EmptyString (split_from b cur s) = cur ++ s.
Proof.
  revert b cur. induction s as [|c s IH]; intros b cur; simpl.
  - destruct b; simpl; [reflexivity | symmetry; apply append_nil_r].
  - destruct (Py.is_ascii_digit c), b;
      rewrite ?join_cons_nonempty by apply split_from_nonempty;
      rewrite IH, ?append_assoc; reflexivity.
Qed.

Lemma all_chars_app (f : ascii -> bool) (a b : string) :
  Py.all_chars f (a ++ b) = Py.all_chars f a && Py.all_chars f b.
Proof.
  induction a as [|c a IH]; simpl; [reflexivity|].
  rewrite IH. apply andb_assoc.
Qed.

Lemma isdigit_ascii_digits (d : string) :
  d <> EmptyString -> Py.all_chars Py.is_ascii_digit d = true ->
  Py.isdigit d = true.
Proof.
  intros Hne Hall. destruct d as [|c d]; [congruence|].
  unfold Py.isdigit. revert Hall. generalize (String c d). intros x.
  induction x as [|y x IH]; cbn [Py.all_chars]; [reflexivity|].
  intros H. apply andb_true_iff in H. destruct H as [Hy Hx].
  rewrite (IH Hx). unfold Py.isdigit_char. rewrite Hy. reflexivity.
Qed.

(** The runs alternate: text, digits, text, and so on. *)
Lemma alternating_split_from (b : bool) (cur s : string) :
  (if b then cur <> EmptyString /\ Py.all_chars Py.is_ascii_digit cur = true
   else Py.all_chars no_digit cur = true) ->
  alternating (negb b) (split_from b cur s) = true.
Proof.
  revert b cur. induction s as [|c s IH]; intros b cur Hcur; simpl.
  - destruct b; simpl.
    + destruct Hcur as [Hne Hall].
      rewrite isdigit_ascii_digits, Hall by assumption. reflexivity.
    + rewrite Hcur. reflexivity.
  - destruct (Py.is_ascii_digit c) eqn:Hc, b; simpl.
    + apply (IH true). destruct Hcur as [Hne Hall]. split.
      * destruct cur; discriminate.
      * rewrite all_chars_app, Hall. simpl. rewrite Hc. reflexivity.
    + rewrite Hcur. apply (IH true). split; [discriminate|].
      simpl. rewrite Hc. reflexivity.
    + destruct Hcur as [Hne Hall].
      rewrite isdigit_ascii_digits, Hall by assumption.
      apply (IH false). simpl. unfold no_digit. rewrite Hc. reflexivity.
    + apply (IH false). rewrite all_chars_app, Hcur. simpl.
      unfold no_digit. rewrite Hc. reflexivity.
Qed.

Lemma split_from_app (b : bool) (cur p s : string) :
  split_from b cur (p ++ s)
  = (fst (scan b cur p)
       ++ split_from (fst (snd (scan b cur p))) (snd (snd (scan b cur p))) s)%list.
Proof.
  revert b cur. induction p as [|c p IH]; intros b cur; simpl; [reflexivity|].
  destruct (Py.is_ascii_digit c), b; try apply IH.
  - rewrite IH. destruct (scan true (String c EmptyString) p). reflexivity.
  - rewrite IH. destruct (scan false (String c EmptyString) p). reflexivity.
Qed.

(** After a prefix that does not end with a digit, the scan is reading
    text. *)
Lemma scan_ends_in_text (b : bool) (cur p : string) :
  p <> EmptyString -> ends_with_digit p = false ->
  fst (snd (scan b cur p)) = false.
Proof.
  revert b cur. induction p as [|c p IH]; intros b cur Hne Hend; [congruence|].
  destruct p as [|c' p].
  - simpl in *. rewrite Hend. destruct b; reflexivity.
  - assert (String c' p <> EmptyString) as Hne' by discriminate.
    change (ends_with_digit (String c' p) = false) in Hend.
    revert Hne' Hend IH. generalize (String c' p). intros q Hne' Hend IH.
    simpl. destruct (Py.is_ascii_digit c), b.
    + apply IH; assumption.
    + specialize (IH true (String c EmptyString) Hne' Hend).
      destruct (scan true (String c EmptyString) q). exact IH.
    + specialize (IH false (String c EmptyString) Hne' Hend).
      destruct (scan false (String c EmptyString) q). exact IH.
    + apply IH; assumption.
Qed.

(** Reading a digit run that the rest of the text does not continue. *)
Lemma split_from_digit_run (cur d s : string) :
  Py.all_chars Py.is_ascii_digit d = true ->
  starts_with_digit s = false ->
  split_from true cur (d ++ s) = (cur ++ d) :: re_split_digits s.
Proof.
  revert cur. induction d as [|c d IH]; intros cur Hall Hs; simpl in *.
  - rewrite append_nil_r. destruct s as [|x s]; [reflexivity|].
    unfold re_split_digits. simpl in *. rewrite Hs. reflexivity.
  - apply andb_true_iff in Hall. destruct Hall as [Hc Hd].
    rewrite Hc, IH, append_assoc by assumption. reflexivity.
Qed.

(** The split of a name at a digit run that starts after [p] and that the
    rest of the name does not continue. *)
Lemma re_split_digits_at_run (p : string) :
  ends_with_digit p = false ->
  exists front t,
    forall d s,
      d <> EmptyString -> Py.all_chars Py.is_ascii_digit d = true ->
      starts_with_digit s = false ->
      re_split_digits (p ++ d ++ s)
      = (front ++ t :: d :: re_split_digits s)%list.
Proof.
  intros Hp.
  exists (fst (scan false EmptyString p)), (snd (snd (scan false EmptyString p))).
  intros d s Hne Hall Hs. unfold re_split_digits at 1.
  rewrite split_from_app. f_equal.
  assert (fst (snd (scan false EmptyString p)) = false) as ->.
  { destruct p as [|c p]; [reflexivity|].
    apply scan_ends_in_text; [discriminate | exact Hp]. }
  destruct d as [|c d]; [congruence|].
  simpl in Hall. apply andb_true_iff in Hall. destruct Hall as [Hc Hd].
  simpl. rewrite Hc. f_equal.
  rewrite split_from_digit_run by assumption. reflexivity.
Qed.

Lemma mapM_app {A B : Type} (f : A -> result B) (l1 l2 : list A) :
  mapM f (l1 ++ l2)%list
  = (a <- mapM f l1 ;; b <- mapM f l2 ;; Ok (a ++ b)%list).
Proof.
  induction l1 as [|x l1 IH]; simpl.
  - destruct (mapM f l2); reflexivity.
  - destruct (f x); simpl; [|reflexivity]. rewrite IH.
    destruct (mapM f l1); simpl; [|reflexivity].
    destruct (mapM f l2); reflexivity.
Qed.

Lemma key_eq_refl (k : key) : key_eq k k = true.
Proof. destruct k; simpl; [apply Z.eqb_refl | apply String.eqb_refl]. Qed.

Lemma list_lt_common_prefix (k l1 l2 : list key) :
  list_lt (k ++ l1)%list (k ++ l2)%list = list_lt l1 l2.
Proof.
  induction k as [|x k IH]; simpl; [reflexivity|].
  rewrite key_eq_refl. exact IH.
Qed.

Lemma key_of_digits (d : string) (n : Z) :
  Py.int_of_str d = Ok n -> key_of d = Ok (KInt n).
Proof.
  intros H. unfold key_of. unfold Py.int_of_str in H.
  destruct d as [|c d]; [discriminate|].
  destruct (Py.all_chars Py.is_ascii_digit (String c d)) eqn:Hall; [|discriminate].
  rewrite isdigit_ascii_digits by (discriminate || exact Hall).
  unfold Py.int_of_str. rewrite Hall. injection H as <-. reflexivity.
Qed.

Lemma int_of_str_digits (d : string) (n : Z) :
  Py.int_of_str d = Ok n ->
  d <> EmptyString /\ Py.all_chars Py.is_ascii_digit d = true.
Proof.
  unfold Py.int_of_str. destruct d as [|c d]; [discriminate|].
  destruct (Py.all_chars Py.is_ascii_digit (String c d)); [|discriminate].
  intros _. split; [discriminate | reflexivity].
Qed.

(** The key of a name with a digit run of value [n] after the prefix [p]:
    the items of the prefix, then [n], then the items of the rest. *)
Lemma natural_sort_key_at_run (front : list string) (t d s : string) (n : Z)
  (k : list key) :
  Py.int_of_str d = Ok n ->
  mapM key_of (front ++ t :: d :: re_split_digits s)%list = Ok k ->
  exists kf kt kr,
    mapM key_of front = Ok kf /\ key_of t = Ok kt
    /\ k = (kf ++ kt :: KInt n :: kr)%list.
Proof.
  intros Hd. rewrite mapM_app. simpl. rewrite (key_of_digits d n Hd).
  destruct (mapM key_of front) as [kf|]; simpl; [|discriminate].
  destruct (key_of t) as [kt|]; simpl; [|discriminate].
  destruct (mapM key_of (re_split_digits s)) as [kr|]; simpl; [|discriminate].
  intros H. injection H as <-. exists kf, kt, kr. repeat split.
Qed.

(** C4.  [<] on two registers compares the natural sort keys of their
    names.  The key splits the name into runs that alternate between text
    and digits and that put together give the name back; a digit run counts
    as the number it denotes.  So when two names agree up to a digit run
    and the run of the first denotes the smaller number, the first register
    is smaller, whatever the lengths of the runs; in particular [r2] is
    below [r10], though the text ["r10"] is below ["r2"]. *)
Theorem natural_order_on_registers :
  (forall c1 c2 name1 name2,
      expr_lt (REG c1 name1) (REG c2 name2)
      = (k1 <- natural_sort_key name1 ;;
         k2 <- natural_sort_key name2 ;;
         list_lt k1 k2))
  /\ (forall name,
         Py.join EmptyString (re_split_digits name) = name
         /\ alternating true (re_split_digits name) = true)
  /\ (forall c1 c2 p d1 s1 d2 s2 n1 n2,
         ends_with_digit p = false ->
         Py.int_of_str d1 = Ok n1 -> Py.int_of_str d2 = Ok n2 ->
         starts_with_digit s1 = false -> starts_with_digit s2 = false ->
         is_ok (natural_sort_key (p ++ d1 ++ s1)) = true ->
         is_ok (natural_sort_key (p ++ d2 ++ s2)) = true ->
         (n1 < n2)%Z ->
         expr_lt (REG c1 (p ++ d1 ++ s1)) (REG c2 (p ++ d2 ++ s2)) = Ok true
         /\ expr_lt (REG c2 (p ++ d2 ++ s2)) (REG c1 (p ++ d1 ++ s1)) = Ok false)
  /\ expr_lt (mkREG "r2") (mkREG "r10") = Ok true
  /\ expr_lt (mkREG "r10") (mkREG "r2") = Ok false
  /\ ("r10" <? "r2")%string = true.
Proof.
  split; [reflexivity|]. split; [|split; [|repeat split]].
  - intros name. split.
    + unfold re_split_digits. rewrite join_split_from. reflexivity.
    + apply (alternating_split_from false). reflexivity.
  - intros c1 c2 p d1 s1 d2 s2 n1 n2 Hp Hd1 Hd2 Hs1 Hs2 Hk1 Hk2 Hlt.
    destruct (re_split_digits_at_run p Hp) as (front & t & Hsplit).
    destruct (int_of_str_digits _ _ Hd1) as [Hne1 Hall1].
    destruct (int_of_str_digits _ _ Hd2) as [Hne2 Hall2].
    cbn [expr_lt]. unfold natural_sort_key in *.
    rewrite (Hsplit d1 s1 Hne1 Hall1 Hs1) in *.
    rewrite (Hsplit d2 s2 Hne2 Hall2 Hs2) in *.
    destruct (mapM key_of (front ++ t :: d1 :: re_split_digits s1)%list)
      as [k1|] eqn:E1; [|discriminate].
    destruct (mapM key_of (front ++ t :: d2 :: re_split_digits s2)%list)
      as [k2|] eqn:E2; [|discriminate].
    destruct (natural_sort_key_at_run _ _ _ _ _ _ Hd1 E1)
      as (kf & kt & kr1 & Hf & Ht & ->).
    destruct (natural_sort_key_at_run _ _ _ _ _ _ Hd2 E2)
      as (kf' & kt' & kr2 & Hf' & Ht' & ->).
    rewrite Hf in Hf'. injection Hf' as <-.
    rewrite Ht in Ht'. injection Ht' as <-.
    cbn [bind]. rewrite !list_lt_common_prefix. cbn [list_lt].
    rewrite key_eq_refl. cbn [key_eq key_lt].
    assert ((n1 =? n2)%Z = false) as -> by (apply Z.eqb_neq; lia).
    assert ((n2 =? n1)%Z = false) as -> by (apply Z.eqb_neq; lia).
    assert ((n1 <? n2)%Z = true) as -> by (apply Z.ltb_lt; lia).
    assert ((n2 <? n1)%Z = false) as -> by (apply Z.ltb_ge; lia).
    split; reflexivity.
Qed.

(** The statement at [r2] and [r10], and at [blk9x] and [blk010y]. *)
Lemma natural_order_on_registers_witness :
  (expr_lt (REG EmptyString ("r" ++ "2" ++ EmptyString))
           (REG EmptyString ("r" ++ "10" ++ EmptyString)) = Ok true
   /\ expr_lt (REG EmptyString ("r" ++ "10" ++ EmptyString))
              (REG EmptyString ("r" ++ "2" ++ EmptyString)) = Ok false)
  /\ (expr_lt (REG EmptyString ("blk" ++ "9" ++ "x"))
              (REG EmptyString ("blk" ++ "010" ++ "y")) = Ok true
      /\ expr_lt (REG EmptyString ("blk" ++ "010" ++ "y"))
                 (REG EmptyString ("blk" ++ "9" ++ "x")) = Ok false).
Proof.
  split.
  - apply (proj1 (proj2 (proj2 natural_order_on_registers))
             EmptyString EmptyString "r" "2" EmptyString "10" EmptyString 2 10);
      try reflexivity.
  - apply (proj1 (proj2 (proj2 natural_order_on_registers))
             EmptyString EmptyString "blk" "9" "x" "010" "y" 9 10);
      try reflexivity.
Defined.

(** ** [dump_bblocks] *)

Lemma BBlock_dump_text (printer : inst -> result string) (l : list inst)
  (stream : string) :
  BBlock_dump stream 0 printer l
  = (lines <- mapM printer l ;; Ok (stream ++ block_text lines)).
Proof.
  revert stream. induction l as [|i l IH]; intros stream; simpl.
  - rewrite append_nil_r. reflexivity.
  - destruct (printer i) as [t|e]; simpl; [|reflexivity].
    rewrite IH. destruct (mapM printer l) as [lines|e]; simpl; [|reflexivity].
    unfold BBlock_write, stream_write. simpl.
    rewrite !append_assoc. reflexivity.
Qed.

(** One turn of the loop writes a newline, unless it is the first, and the
    entry of the node. *)
Lemma dump_node_text (cfg : Graph) (printer : inst -> result string)
  (stream : string) (cnt : nat) (node : string * node_info) :
  dump_node cfg printer stream cnt node
  = (t <- entry_text cfg printer node ;;
     Ok (stream ++ (if (0 <? cnt)%nat then Py.nl else EmptyString) ++ t)).
Proof.
  destruct node as [addr info]. unfold dump_node, entry_text.
  destruct (py_sorted str_lt (pred cfg addr)) as [preds|e]; simpl; [|reflexivity].
  unfold print, stream_write.
  destruct (val info) as [b|].
  - rewrite BBlock_dump_text.
    destruct (mapM printer (items b)) as [lines|e]; simpl; [|reflexivity].
    destruct (0 <? cnt)%nat, (dfsno info); simpl;
      rewrite ?append_assoc; simpl; rewrite ?append_assoc; reflexivity.
  - simpl. destruct (0 <? cnt)%nat, (dfsno info); simpl;
      rewrite ?append_assoc; simpl; rewrite ?append_assoc; reflexivity.
Qed.

Lemma dump_loop_text (cfg : Graph) (printer : inst -> result string)
  (l : list (string * node_info)) (stream : string) (cnt : nat) :
  dump_loop cfg printer stream cnt l
  = (entries <- mapM (entry_text cfg printer) l ;;
     Ok (stream ++ entries_text (cnt =? 0)%nat entries)).
Proof.
  revert stream cnt. induction l as [|node l IH]; intros stream cnt; simpl.
  - rewrite append_nil_r. reflexivity.
  - rewrite dump_node_text.
    destruct (entry_text cfg printer node) as [t|e]; simpl; [|reflexivity].
    rewrite IH.
    destruct (mapM (entry_text cfg printer) l) as [entries|e]; simpl;
      [|reflexivity].
    destruct cnt; simpl; rewrite ?append_assoc; reflexivity.
Qed.

Lemma entries_text_join (e : string) (entries : list string) :
  Py.join Py.nl (e :: entries) = e ++ entries_text false entries.
Proof.
  revert e. induction entries as [|e' entries IH]; intros e.
  - simpl. symmetry. apply append_nil_r.
  - change (Py.join Py.nl (e :: e' :: entries))
      with (e ++ Py.nl ++ Py.join Py.nl (e' :: entries)).
    rewrite IH. reflexivity.
Qed.

(** *** [sorted] returns a sorted permutation *)

Section PySortedFacts.
Context {A : Type} (lt : A -> A -> result bool).

Lemma insert_sorted_perm (x : A) (l r : list A) :
  insert_sorted lt x l = Ok r -> Permutation r (x :: l).
Proof.
  revert r. induction l as [|y l IH]; intros r; simpl.
  - intros H. injection H as <-. apply Permutation_refl.
  - destruct (lt y x) as [[|]|]; simpl; try discriminate.
    + destruct (insert_sorted lt x l) as [r'|]; simpl; [|discriminate].
      intros H. injection H as <-.
      apply Permutation_trans with (y :: x :: l).
      * apply perm_skip. apply IH. reflexivity.
      * apply perm_swap.
    + intros H. injection H as <-. apply Permutation_refl.
Qed.

Lemma py_sorted_perm (l r : list A) :
  py_sorted lt l = Ok r -> Permutation r l.
Proof.
  revert r. induction l as [|x l IH]; intros r; simpl.
  - intros H. injection H as <-. apply Permutation_refl.
  - destruct (py_sorted lt l) as [r'|]; simpl; [|discriminate].
    intros H. apply insert_sorted_perm in H.
    apply Permutation_trans with (x :: r'); [exact H|].
    apply perm_skip. apply IH. reflexivity.
Qed.

Hypothesis lt_asym : forall a b, lt a b = Ok true -> lt b a = Ok false.

Lemma insert_sorted_sorted (x : A) (l r : list A) :
  Sorted (not_after lt) l -> insert_sorted lt x l = Ok r ->
  Sorted (not_after lt) r /\ (forall y, HdRel (not_after lt) y l -> not_after lt y x ->
                                    HdRel (not_after lt) y r).
Proof.
  revert r. induction l as [|y l IH]; intros r Hs; simpl.
  - intros H. injection H as <-. split.
    + repeat constructor.
    + intros z _ Hz. constructor. exact Hz.
  - destruct (lt y x) as [[|]|] eqn:Hyx; simpl; try discriminate.
    + destruct (insert_sorted lt x l) as [r'|] eqn:Hr; simpl; [|discriminate].
      intros H. injection H as <-.
      apply Sorted_inv in Hs. destruct Hs as [Hl Hy].
      destruct (IH r' Hl eq_refl) as [Hr' Hhd]. split.
      * constructor; [exact Hr'|]. apply Hhd; [exact Hy|].
        apply lt_asym. exact Hyx.
      * intros z Hz _. inversion Hz; subst. constructor. assumption.
    + intros H. injection H as <-. split.
      * constructor; [exact Hs|]. constructor. exact Hyx.
      * intros z _ Hz. constructor. exact Hz.
Qed.

Lemma py_sorted_sorted (l r : list A) :
  py_sorted lt l = Ok r -> Sorted (not_after lt) r.
Proof.
  revert r. induction l as [|x l IH]; intros r; simpl.
  - intros H. injection H as <-. constructor.
  - destruct (py_sorted lt l) as [r'|]; simpl; [|discriminate].
    intros H. eapply insert_sorted_sorted; [|exact H].
    apply IH. reflexivity.
Qed.
End PySortedFacts.

Lemma key_eq_sym (x y : key) : key_eq x y = key_eq y x.
Proof.
  destruct x, y; simpl; try reflexivity;
    [apply Z.eqb_sym | apply String.eqb_sym].
Qed.

Lemma str_ltb_asym (a b : string) :
  (a <? b)%string = true -> (b <? a)%string = false.
Proof.
  unfold String.ltb. rewrite (String.compare_antisym b a).
  destruct (a ?= b)%string; simpl; congruence.
Qed.

Lemma key_lt_asym (x y : key) :
  key_lt x y = Ok true -> key_lt y x = Ok false.
Proof.
  destruct x, y; simpl; try discriminate; intros H; injection H as H.
  - f_equal. apply Z.ltb_ge. apply Z.ltb_lt in H. lia.
  - f_equal. apply str_ltb_asym. exact H.
Qed.

Lemma list_lt_asym (l1 l2 : list key) :
  list_lt l1 l2 = Ok true -> list_lt l2 l1 = Ok false.
Proof.
  revert l2. induction l1 as [|x l1 IH]; intros [|y l2]; simpl;
    try discriminate; try reflexivity.
  rewrite (key_eq_sym y x). destruct (key_eq x y); [apply IH|].
  apply key_lt_asym.
Qed.

(** *** The order of the nodes *)

Lemma mapM_keyed {A K : Type} (f : A -> result K) (l : list A)
  (keyed : list (K * A)) :
  mapM (fun n => k <- f n ;; Ok (k, n)) l = Ok keyed ->
  map snd keyed = l /\ Forall (fun kn => f (snd kn) = Ok (fst kn)) keyed.
Proof.
  revert keyed. induction l as [|n l IH]; intros keyed; simpl.
  - intros H. injection H as <-. split; constructor.
  - destruct (f n) as [k|] eqn:Hk; simpl; [|discriminate].
    destruct (mapM _ l) as [keyed'|]; simpl; [|discriminate].
    intros H. injection H as <-.
    destruct (IH keyed' eq_refl) as [Hmap Hall]. split.
    + simpl. now rewrite Hmap.
    + constructor; assumption.
Qed.

Lemma sorted_keyed_natural (l : list (list key * (string * node_info))) :
  Forall (fun kn => natural_sort_key (fst (snd kn)) = Ok (fst kn)) l ->
  Sorted (not_after (fun a b => list_lt (fst a) (fst b))) l ->
  Sorted natural_le (map fst (map snd l)).
Proof.
  intros Hall Hs. induction Hs as [|a l Hs IH Hhd]; simpl; [constructor|].
  apply Forall_cons_iff in Hall. destruct Hall as [Ha Hl].
  constructor; [apply IH; exact Hl|].
  destruct Hhd as [|b l Hab]; simpl; constructor.
  apply Forall_cons_iff in Hl. destruct Hl as [Hb _].
  exists (fst a), (fst b). repeat split; assumption.
Qed.

(** The nodes come out as a permutation of the nodes of the graph, each
    address in natural order with the next. *)
Lemma iter_sorted_nodes_sorted (cfg : Graph) (sorted : list (string * node_info)) :
  iter_sorted_nodes cfg = Ok sorted ->
  Permutation sorted (nodes cfg) /\ Sorted natural_le (map fst sorted).
Proof.
  unfold iter_sorted_nodes.
  destruct (mapM _ (nodes cfg)) as [keyed|] eqn:Hkeyed; simpl; [|discriminate].
  destruct (py_sorted _ keyed) as [r|] eqn:Hr; simpl; [|discriminate].
  intros H. injection H as <-.
  destruct (mapM_keyed _ _ _ Hkeyed) as [Hmap Hall].
  pose proof (py_sorted_perm _ _ _ Hr) as Hperm. split.
  - rewrite <- Hmap. apply Permutation_map. exact Hperm.
  - apply sorted_keyed_natural.
    + eapply Permutation_Forall; [apply Permutation_sym; exact Hperm | exact Hall].
    + eapply py_sorted_sorted; [|exact Hr].
      intros a b. apply list_lt_asym.
Qed.

(** *** The dump returns *)

Lemma mapM_returns {A B : Type} (f : A -> result B) (l : list A) :
  Forall (fun x => is_ok (f x) = true) l -> exists r, mapM f l = Ok r.
Proof.
  induction 1 as [|x l Hx _ [r Hr]]; simpl.
  - exists []. reflexivity.
  - destruct (f x) as [y|]; [|discriminate]. rewrite Hr.
    exists (y :: r). reflexivity.
Qed.

Section PySortedReturns.
Context {A : Type} (lt : A -> A -> result bool) (P : A -> Prop).
Hypothesis lt_returns : forall a b, P a -> P b -> exists r, lt a b = Ok r.

Lemma insert_sorted_returns (x : A) (l : list A) :
  P x -> Forall P l ->
  exists r, insert_sorted lt x l = Ok r /\ Forall P r.
Proof.
  intros Hx Hl. induction Hl as [|y l Hy Hl IH]; simpl.
  - exists [x]. split; [reflexivity | repeat constructor; exact Hx].
  - destruct (lt_returns y x Hy Hx) as [[|] ->]; simpl.
    + destruct IH as (r & -> & Hr). simpl. exists (y :: r).
      split; [reflexivity | constructor; assumption].
    + exists (x :: y :: l). split; [reflexivity|].
      repeat constructor; assumption.
Qed.

Lemma py_sorted_returns (l : list A) :
  Forall P l -> exists r, py_sorted lt l = Ok r /\ Forall P r.
Proof.
  induction 1 as [|x l Hx Hl (r & Hr & HP)]; simpl.
  - exists []. split; [reflexivity | constructor].
  - rewrite Hr. simpl. apply insert_sorted_returns; assumption.
Qed.
End PySortedReturns.

Lemma no_digit_not_all_digits (x : string) :
  x <> EmptyString -> Py.all_chars no_digit x = true ->
  Py.all_chars Py.is_ascii_digit x = false.
Proof.
  destruct x as [|c x]; [congruence|]. intros _. simpl. unfold no_digit.
  destruct (Py.is_ascii_digit c); [discriminate | reflexivity].
Qed.

(** The key of a text run, when there is one, is the text. *)
Lemma key_of_text (x : string) (k : key) :
  Py.all_chars no_digit x = true -> key_of x = Ok k -> k = KStr x.
Proof.
  intros Hx. unfold key_of. destruct (Py.isdigit x) eqn:Hd.
  - unfold Py.int_of_str. destruct x as [|c x]; [discriminate|].
    rewrite no_digit_not_all_digits by (discriminate || exact Hx).
    discriminate.
  - intros H. injection H as <-. reflexivity.
Qed.

(** The key of a digit run is a number. *)
Lemma key_of_digit_run (x : string) (k : key) :
  Py.isdigit x = true -> key_of x = Ok k -> exists n, k = KInt n.
Proof.
  intros Hd. unfold key_of. rewrite Hd.
  destruct (Py.int_of_str x) as [n|]; simpl; [|discriminate].
  intros H. injection H as <-. exists n. reflexivity.
Qed.

Lemma aligned_keys (is_text : bool) (l : list string) (k : list key) :
  alternating is_text l = true -> mapM key_of l = Ok k ->
  aligned is_text k = true.
Proof.
  revert is_text k. induction l as [|x l IH]; intros is_text k Halt; simpl.
  - intros H. injection H as <-. reflexivity.
  - simpl in Halt. apply andb_true_iff in Halt. destruct Halt as [Hx Hl].
    destruct (key_of x) as [kx|] eqn:Hkx; simpl; [|discriminate].
    destruct (mapM key_of l) as [kl|] eqn:Hkl; simpl; [|discriminate].
    intros H. injection H as <-.
    specialize (IH (negb is_text) kl Hl eq_refl).
    destruct is_text; simpl in *.
    + rewrite (key_of_text x kx Hx Hkx). exact IH.
    + apply andb_true_iff in Hx. destruct Hx as [Hd _].
      destruct (key_of_digit_run x kx Hd Hkx) as [n ->]. exact IH.
Qed.

(** The sort key of a name starts with a text item and alternates. *)
Lemma natural_sort_key_aligned (name : string) (k : list key) :
  natural_sort_key name = Ok k -> aligned true k = true.
Proof.
  apply aligned_keys. apply (alternating_split_from false). reflexivity.
Qed.

(** Comparing two keys that alternate alike never raises. *)
Lemma list_lt_aligned (is_text : bool) (k1 k2 : list key) :
  aligned is_text k1 = true -> aligned is_text k2 = true ->
  exists b, list_lt k1 k2 = Ok b.
Proof.
  revert is_text k2. induction k1 as [|x k1 IH]; intros is_text [|y k2] H1 H2;
    simpl; try (eexists; reflexivity).
  destruct x, y, is_text; simpl in *; try discriminate;
    (destruct (_ =? _)%Z || destruct (_ =? _)%string);
    try (eexists; reflexivity); eapply IH; eassumption.
Qed.

Lemma iter_sorted_nodes_returns (cfg : Graph) :
  addresses_have_keys cfg -> exists sorted, iter_sorted_nodes cfg = Ok sorted.
Proof.
  intros Hkeys. unfold iter_sorted_nodes.
  destruct (mapM_returns (fun n : string * node_info =>
                            k <- natural_sort_key (fst n) ;; Ok (k, n))
              (nodes cfg)) as [keyed Hkeyed].
  { eapply Forall_impl; [|exact Hkeys]. intros n Hn. simpl in *.
    destruct (natural_sort_key (fst n)); [reflexivity | discriminate]. }
  rewrite Hkeyed. simpl.
  destruct (mapM_keyed _ _ _ Hkeyed) as [_ Hall].
  destruct (py_sorted_returns
              (fun a b : list key * (string * node_info) =>
                 list_lt (fst a) (fst b))
              (fun kn => aligned true (fst kn) = true)) with (l := keyed)
    as (r & -> & _).
  - intros a b Ha Hb. eapply list_lt_aligned; eassumption.
  - eapply Forall_impl; [|exact Hall]. intros kn Hkn. simpl in *.
    eapply natural_sort_key_aligned. exact Hkn.
  - simpl. eexists. reflexivity.
Qed.

Lemma sorted_str_returns (l : list string) :
  exists r, py_sorted str_lt l = Ok r.
Proof.
  destruct (py_sorted_returns str_lt (fun _ => True)) with (l := l)
    as (r & Hr & _).
  - intros a b _ _. eexists. reflexivity.
  - apply Forall_forall. intros; exact I.
  - exists r. exact Hr.
Qed.

Lemma entry_text_returns (cfg : Graph) (printer : inst -> result string)
  (node : string * node_info) :
  (forall b i, val (snd node) = Some b -> In i (items b) ->
               is_ok (printer i) = true) ->
  is_ok (entry_text cfg printer node) = true.
Proof.
  destruct node as [addr info]. simpl. intros Hp. unfold entry_text.
  destruct (sorted_str_returns (pred cfg addr)) as [preds ->]. simpl.
  destruct (val info) as [b|]; simpl; [|reflexivity].
  destruct (mapM_returns printer (items b)) as [lines ->]; [|reflexivity].
  apply Forall_forall. intros i Hi. apply (Hp b i); [reflexivity | exact Hi].
Qed.

(** The dump returns a text when every address has a sort key and the
    printer renders every instruction. *)
Lemma dump_bblocks_returns (cfg : Graph) (printer : inst -> result string) :
  addresses_have_keys cfg -> printer_returns cfg printer ->
  exists out, dump_bblocks cfg printer = Ok out.
Proof.
  intros Hkeys Hprinter. unfold dump_bblocks.
  destruct (iter_sorted_nodes_returns cfg Hkeys) as [sorted Hsorted].
  rewrite Hsorted. simpl. rewrite dump_loop_text.
  destruct (mapM_returns (entry_text cfg printer) sorted) as [entries ->].
  - apply Forall_forall. intros node Hnode. apply entry_text_returns.
    intros b i Hb Hi. apply (Hprinter node b i); try assumption.
    destruct (iter_sorted_nodes_sorted cfg sorted Hsorted) as [Hperm _].
    eapply Permutation_in; eassumption.
  - simpl. eexists. reflexivity.
Qed.

(** C7, as amended.  The dump is the entries of the nodes, one per node,
    joined by a newline each (every entry ends with one, so a blank line
    separates two entries).  The nodes are taken in natural order of their
    addresses.  An entry is the line of the sorted predecessors, the line of
    the DFS number if there is one, the label, the lines of the block through
    the printer or the placeholder, and the line of the exits: the list, in
    the order of the graph, of the pairs of the [repr] of the edge condition
    ([SCond(...)] or [CCond(...)], unquoted, or [None]) and the quoted
    successor address. *)
Theorem dump_bblocks_entries (cfg : Graph) (printer : inst -> result string) :
  dump_bblocks cfg printer
  = (sorted <- iter_sorted_nodes cfg ;;
     entries <- mapM (entry_text cfg printer) sorted ;;
     Ok (Py.join Py.nl entries))
  /\ (forall sorted,
         iter_sorted_nodes cfg = Ok sorted ->
         Permutation sorted (nodes cfg)
         /\ Sorted natural_le (map fst sorted))
  /\ (addresses_have_keys cfg -> printer_returns cfg printer ->
      exists out, dump_bblocks cfg printer = Ok out).
Proof.
  split; [|split; [|apply dump_bblocks_returns]].
  - unfold dump_bblocks.
    destruct (iter_sorted_nodes cfg) as [sorted|e]; simpl; [|reflexivity].
    rewrite dump_loop_text.
    destruct (mapM (entry_text cfg printer) sorted) as [[|e entries]|e]; simpl;
      try reflexivity.
    f_equal. symmetry. apply entries_text_join.
  - apply iter_sorted_nodes_sorted.
Qed.

(** The statement at [two_blocks]: [blk2] comes out before [blk10], though
    the graph stores it after, and the dump returns. *)
Lemma dump_bblocks_entries_witness :
  (Permutation
     [ ("blk2", {| val := Some {| bb_addr := "blk2";
                                  items := [mkInst (Some (mkREG "r1")) "ASSIGN"
                                              [AExpr (mkVALUE 0)] None] |};
                   dfsno := Some 1 |});
       ("blk10", {| val := Some {| bb_addr := "blk10";
                                   items := [mkInst None "return" [] None] |};
                    dfsno := None |}) ]
     (nodes two_blocks)
   /\ Sorted natural_le ["blk2"; "blk10"])
  /\ exists out, dump_bblocks two_blocks Inst_str = Ok out.
Proof.
  split.
  - apply (proj1 (proj2 (dump_bblocks_entries two_blocks Inst_str))).
    reflexivity.
  - apply (proj2 (proj2 (dump_bblocks_entries two_blocks Inst_str))).
    + repeat constructor.
    + intros node b i Hnode Hb Hi. simpl in Hnode.
      destruct Hnode as [<- | [<- | []]]; simpl in Hb; injection Hb as <-;
        simpl in Hi; destruct Hi as [<- | []]; reflexivity.
Defined.

(** The dump of [two_blocks], with [str] as printer. *)
Example dump_two_blocks :
  dump_bblocks two_blocks Inst_str
  = Ok ("// Predecessors: ['blk1']" ++ Py.nl
          ++ "// DFS#: 1" ++ Py.nl
          ++ "blk2:" ++ Py.nl
          ++ "$r1 = 0x0" ++ Py.nl
          ++ "Exits: [(SCond(r1 == 0), 'blk10')]" ++ Py.nl
          ++ Py.nl
          ++ "// Predecessors: ['blk2']" ++ Py.nl
          ++ "blk10:" ++ Py.nl
          ++ "return" ++ Py.nl
          ++ "Exits: [(None, 'blk11')]" ++ Py.nl).
Proof. reflexivity. Qed.

(** C7 as stated fails on its own example: the exits of [blk2] show the
    [repr] of the condition object, [SCond(r1 == 0)], not its text between
    quotes; and an edge without condition shows [None]. *)
Lemma dump_exits_show_repr :
  cond_str r1_is_0 = "(r1 == 0)"
  /\ exists out,
       dump_bblocks two_blocks Inst_str = Ok out
       /\ contains_text "Exits: [(SCond(r1 == 0), 'blk10')]" out = true
       /\ contains_text "[('(r1 == 0)', 'blk10')]" out = false
       /\ contains_text "Exits: [(None, 'blk11')]" out = true
       /\ contains_text "none" out = false.
Proof.
  split; [reflexivity|]. eexists. split; [reflexivity|]. repeat split.
Qed.

(** * Further properties of the code *)

(** ** Expressions: [==], [hash], [reg] *)

Lemma expr_eq_sym (e1 e2 : expr) : expr_eq e1 e2 = expr_eq e2 e1.
Proof.
  revert e2. induction e1 as [c n|c v b|c a|c t b IH o|i c n]; intros e2;
    destruct e2; simpl; try reflexivity.
  - apply String.eqb_sym.
  - apply Z.eqb_sym.
  - apply String.eqb_sym.
  - rewrite IH, String.eqb_sym, Z.eqb_sym. reflexivity.
  - apply Pos.eqb_sym.
Qed.

Lemma expr_eq_trans (e1 e2 e3 : expr) :
  expr_eq e1 e2 = true -> expr_eq e2 e3 = true -> expr_eq e1 e3 = true.
Proof.
  revert e2 e3. induction e1 as [c n|c v b|c a|c t b IH o|i c n];
    intros e2 e3; destruct e2, e3; simpl; try discriminate.
  - intros H1 H2. apply String.eqb_eq in H1, H2. subst. apply String.eqb_refl.
  - intros H1 H2. apply Z.eqb_eq in H1, H2. subst. apply Z.eqb_refl.
  - intros H1 H2. apply String.eqb_eq in H1, H2. subst. apply String.eqb_refl.
  - intros H1 H2.
    apply andb_true_iff in H1. destruct H1 as [H1 Ho1].
    apply andb_true_iff in H1. destruct H1 as [Ht1 Hb1].
    apply andb_true_iff in H2. destruct H2 as [H2 Ho2].
    apply andb_true_iff in H2. destruct H2 as [Ht2 Hb2].
    apply String.eqb_eq in Ht1, Ht2. apply Z.eqb_eq in Ho1, Ho2. subst.
    rewrite String.eqb_refl, Z.eqb_refl, (IH _ _ Hb1 Hb2). reflexivity.
  - intros H1 H2. apply Pos.eqb_eq in H1, H2. subst. apply Pos.eqb_refl.
Qed.

(** X1.  [==] on expressions is an equivalence: every expression equals
    itself, the answer does not depend on the side, and two expressions
    equal to a third are equal. *)
Theorem expr_eq_equivalence :
  (forall e, expr_eq e e = true)
  /\ (forall e1 e2, expr_eq e1 e2 = expr_eq e2 e1)
  /\ (forall e1 e2 e3,
         expr_eq e1 e2 = true -> expr_eq e2 e3 = true -> expr_eq e1 e3 = true).
Proof.
  split; [exact expr_eq_refl|]. split; [exact expr_eq_sym | exact expr_eq_trans].
Qed.

Lemma expr_eq_equivalence_witness :
  expr_eq (MEM "a" "u32" (VALUE EmptyString 16 16) 4)
          (MEM "b" "u32" (VALUE "c" 16 10) 4) = true.
Proof.
  apply (proj2 (proj2 expr_eq_equivalence)
           _ (MEM EmptyString "u32" (mkVALUE 16) 4) _); reflexivity.
Defined.

(** X2.  Whatever the built-in hashes are, expressions that are equal have
    the same hash. *)
Theorem hash_consistent_with_eq
  (hash_str : string -> Z) (hash_int : Z -> Z) (hash_id : positive -> Z)
  (hash_norm : Z -> Z) (e1 e2 : expr) :
  expr_eq e1 e2 = true ->
  expr_hash hash_str hash_int hash_id hash_norm e1
  = expr_hash hash_str hash_int hash_id hash_norm e2.
Proof.
  revert e2. induction e1 as [c n|c v b|c a|c t b IH o|i c n]; intros e2;
    destruct e2; simpl; try discriminate; intros H.
  - apply String.eqb_eq in H. now subst.
  - apply Z.eqb_eq in H. now subst.
  - apply String.eqb_eq in H. now subst.
  - apply andb_true_iff in H. destruct H as [H Ho].
    apply andb_true_iff in H. destruct H as [Ht Hb].
    apply String.eqb_eq in Ht. apply Z.eqb_eq in Ho. subst.
    rewrite (IH _ Hb). reflexivity.
  - apply Pos.eqb_eq in H. now subst.
Qed.

Lemma hash_consistent_with_eq_witness :
  expr_hash (fun s => Z.of_nat (String.length s)) (fun n => n) Zpos (fun n => n)
    (VALUE EmptyString 16 16)
  = expr_hash (fun s => Z.of_nat (String.length s)) (fun n => n) Zpos (fun n => n)
      (VALUE "x" 16 10).
Proof.
  apply (hash_consistent_with_eq _ _ _ _ (VALUE EmptyString 16 16)
           (VALUE "x" 16 10)).
  reflexivity.
Defined.

(** X3.  [reg()] returns a register or nothing: the expression itself when
    it is a [REG], the base of a [MEM] when that base is a [REG], and
    [None] in every other case, also for a [MEM] whose base is a [MEM]
    over a register. *)
Theorem reg_is_register_or_none (e : expr) :
  match reg e with
  | Some r =>
      type_name r = "REG"
      /\ (r = e \/ exists c t o, e = MEM c t r o)
  | None =>
      type_name e <> "REG"
      /\ (forall c t b o, e = MEM c t b o -> type_name b <> "REG")
  end.
Proof.
  destruct e as [c n|c v b|c a|c t b o|i c n]; simpl;
    try (split; [discriminate | intros; discriminate]).
  - split; [reflexivity | left; reflexivity].
  - destruct b; simpl;
      try (split; [discriminate | intros ? ? ? ? H; injection H as _ _ <- _; discriminate]).
    split; [reflexivity | right; eauto].
Qed.

Lemma reg_is_register_or_none_witness :
  type_name (MEM EmptyString "u32" (mkMEM "u32" (mkREG "sp")) 0) <> "REG"
  /\ (forall c t b o,
         MEM EmptyString "u32" (mkMEM "u32" (mkREG "sp")) 0 = MEM c t b o ->
         type_name b <> "REG").
Proof.
  exact (reg_is_register_or_none
           (MEM EmptyString "u32" (mkMEM "u32" (mkREG "sp")) 0)).
Defined.

(** X4.  For [REG], [VALUE], [ADDR] and [MEM], [str] and [repr] start with
    the comment tag of the expression. *)
Theorem comment_tag_leads_renderings (e : expr) :
  type_name e <> "SFUNC" ->
  exists rest_str rest_repr,
    expr_str e = comment_of e ++ rest_str
    /\ expr_repr e = comment_of e ++ rest_repr.
Proof.
  intros H.
  assert (forall i c n, e <> SFUNC i c n) as Hne.
  { intros i c n ->. apply H. reflexivity. }
  destruct (comment_prefix_str e Hne) as [r1 H1].
  destruct (comment_prefix_repr e Hne) as [r2 H2].
  exists r1, r2. split; assumption.
Qed.

Lemma comment_tag_leads_renderings_witness :
  exists rest_str rest_repr,
    expr_str (MEM "/*sp*/" "u32" (mkREG "sp") 8) = "/*sp*/" ++ rest_str
    /\ expr_repr (MEM "/*sp*/" "u32" (mkREG "sp") 8) = "/*sp*/" ++ rest_repr.
Proof.
  apply (comment_tag_leads_renderings (MEM "/*sp*/" "u32" (mkREG "sp") 8)).
  discriminate.
Defined.

(** ** Expressions: the order *)

Lemma str_compare_lt_trans (a b c : string) :
  (a ?= b)%string = Lt -> (b ?= c)%string = Lt -> (a ?= c)%string = Lt.
Proof.
  revert b c. induction a as [|x a IH]; intros [|y b] [|z c]; simpl;
    try discriminate; try reflexivity.
  destruct (x ?= y)%char eqn:Exy; try discriminate;
    destruct (y ?= z)%char eqn:Eyz; try discriminate; intros H1 H2.
  - apply Ascii.compare_eq_iff in Exy, Eyz. subst.
    assert ((z ?= z)%char = Eq) as -> by (unfold Ascii.compare; apply N.compare_refl).
    eapply IH; eassumption.
  - apply Ascii.compare_eq_iff in Exy. subst. rewrite Eyz. reflexivity.
  - apply Ascii.compare_eq_iff in Eyz. subst. rewrite Exy. reflexivity.
  - unfold Ascii.compare in *.
    apply N.compare_lt_iff in Exy. apply N.compare_lt_iff in Eyz.
    assert ((N_of_ascii x ?= N_of_ascii z)%N = Lt) as ->
      by (apply N.compare_lt_iff; eapply N.lt_trans; eassumption).
    reflexivity.
Qed.

Lemma str_ltb_trans (a b c : string) :
  (a <? b)%string = true -> (b <? c)%string = true -> (a <? c)%string = true.
Proof.
  unfold String.ltb.
  destruct (a ?= b)%string eqn:E1; try discriminate.
  destruct (b ?= c)%string eqn:E2; try discriminate.
  rewrite (str_compare_lt_trans a b c E1 E2). reflexivity.
Qed.

Lemma key_eq_true (x y : key) : key_eq x y = true -> x = y.
Proof.
  destruct x, y; simpl; try discriminate; intros H.
  - apply Z.eqb_eq in H. now subst.
  - apply String.eqb_eq in H. now subst.
Qed.

Lemma key_lt_trans (x y z : key) :
  key_lt x y = Ok true -> key_lt y z = Ok true -> key_lt x z = Ok true.
Proof.
  destruct x, y, z; simpl; try discriminate; intros H1 H2;
    injection H1 as H1; injection H2 as H2; f_equal.
  - apply Z.ltb_lt in H1, H2. apply Z.ltb_lt. lia.
  - eapply str_ltb_trans; eassumption.
Qed.

Lemma key_lt_not_eq (x y : key) : key_lt x y = Ok true -> key_eq x y = false.
Proof.
  destruct x, y; simpl; try discriminate; intros H; injection H as H.
  - apply Z.ltb_lt in H. apply Z.eqb_neq. lia.
  - destruct (String.eqb_spec s s0) as [-> |]; [|reflexivity].
    unfold String.ltb in H.
    assert ((s0 ?= s0)%string = Eq) as E.
    { clear H. induction s0 as [|c s0 IH]; simpl; [reflexivity|].
      assert ((c ?= c)%char = Eq) as -> by (unfold Ascii.compare; apply N.compare_refl).
      exact IH. }
    rewrite E in H. discriminate.
Qed.

Lemma list_lt_irrefl (k : list key) : list_lt k k = Ok false.
Proof.
  induction k as [|x k IH]; simpl; [reflexivity|].
  rewrite key_eq_refl. exact IH.
Qed.

Lemma list_lt_trans (k1 k2 k3 : list key) :
  list_lt k1 k2 = Ok true -> list_lt k2 k3 = Ok true -> list_lt k1 k3 = Ok true.
Proof.
  revert k2 k3. induction k1 as [|x k1 IH]; intros [|y k2] [|z k3]; simpl;
    try discriminate; try reflexivity.
  destruct (key_eq x y) eqn:Exy.
  - apply key_eq_true in Exy. subst y.
    destruct (key_eq x z); [apply IH | intros _ H; exact H].
  - intros Hxy. destruct (key_eq y z) eqn:Eyz.
    + apply key_eq_true in Eyz. subst z. rewrite Exy. intros _. exact Hxy.
    + intros Hyz. pose proof (key_lt_trans _ _ _ Hxy Hyz) as Hxz.
      rewrite (key_lt_not_eq _ _ Hxz). exact Hxz.
Qed.

(** Neither key below the other: the keys are the same. *)
Lemma list_lt_total (k1 k2 : list key) :
  list_lt k1 k2 = Ok false -> list_lt k2 k1 = Ok false -> k1 = k2.
Proof.
  revert k2. induction k1 as [|x k1 IH]; intros [|y k2]; simpl;
    try discriminate; try reflexivity.
  rewrite (key_eq_sym y x). destruct (key_eq x y) eqn:Exy.
  - apply key_eq_true in Exy. subst y. intros H1 H2. f_equal. apply IH; assumption.
  - destruct x, y; simpl in *; try discriminate; intros H1 H2;
      injection H1 as H1; injection H2 as H2; exfalso.
    + apply Z.ltb_ge in H1, H2. apply Z.eqb_neq in Exy. lia.
    + unfold String.ltb in H1, H2. rewrite (String.compare_antisym s0 s) in H2.
      destruct (s ?= s0)%string eqn:E; simpl in *; try discriminate.
      apply String.compare_eq_iff in E. subst.
      rewrite String.eqb_refl in Exy. discriminate.
Qed.

Lemma expr_eq_congr (a a' c : expr) :
  expr_eq a a' = true -> expr_eq a c = expr_eq a' c.
Proof.
  intros H. destruct (expr_eq a c) eqn:E1, (expr_eq a' c) eqn:E2; try reflexivity.
  - rewrite expr_eq_sym in H. rewrite (expr_eq_trans _ _ _ H E1) in E2. discriminate.
  - rewrite (expr_eq_trans _ _ _ H E2) in E1. discriminate.
Qed.

(** Equal expressions take the same place in the order. *)
Lemma expr_lt_congr (a a' : expr) :
  expr_eq a a' = true ->
  forall c, expr_lt a c = expr_lt a' c /\ expr_lt c a = expr_lt c a'.
Proof.
  revert a'. induction a as [ca n|ca v b|ca ad|ca t ba IH o|i ca n];
    intros a' Heq; destruct a'; simpl in Heq; try discriminate; intros c.
  - apply String.eqb_eq in Heq. subst. split; destruct c; reflexivity.
  - split; destruct c; reflexivity.
  - split; destruct c; reflexivity.
  - apply andb_true_iff in Heq. destruct Heq as [Heq Ho].
    apply andb_true_iff in Heq. destruct Heq as [_ Hb].
    apply Z.eqb_eq in Ho. subst.
    split; destruct c as [| | |cc tc bc oc|]; try reflexivity; simpl.
    + rewrite (expr_eq_congr _ _ bc Hb), (proj1 (IH _ Hb bc)). reflexivity.
    + rewrite (expr_eq_sym bc ba), (expr_eq_sym bc a'),
        (expr_eq_congr _ _ bc Hb), (proj2 (IH _ Hb bc)). reflexivity.
  - split; destruct c; reflexivity.
Qed.

Lemma expr_lt_asym (a b : expr) :
  expr_lt a b = Ok true -> expr_lt b a <> Ok true.
Proof.
  revert b. induction a as [ca n|ca v bv|ca ad|ca t ba IH o|i ca n];
    intros b H; try discriminate H.
  - destruct b as [cb nb| | | |]; try (cbv in H; discriminate H);
      try (simpl; discriminate).
    simpl in *.
    destruct (natural_sort_key n) as [k1|]; simpl in *; [|discriminate].
    destruct (natural_sort_key nb) as [k2|]; simpl in *; [|discriminate].
    rewrite (list_lt_asym _ _ H). discriminate.
  - destruct b as [| | |cb tb bb ob|]; try (cbv in H; discriminate H);
      try (simpl; discriminate).
    simpl in *. rewrite (expr_eq_sym bb ba).
    destruct (expr_eq ba bb).
    + injection H as H. apply Z.ltb_lt in H.
      assert ((ob <? o)%Z = false) as -> by (apply Z.ltb_ge; lia). discriminate.
    + apply IH. exact H.
Qed.

Lemma expr_lt_trans (a b c : expr) :
  expr_lt a b = Ok true -> expr_lt b c = Ok true -> expr_lt a c = Ok true.
Proof.
  revert b c. induction a as [ca n|ca v bv|ca ad|ca t ba IH o|i ca n];
    intros b c H1 H2; try discriminate H1.
  - destruct b as [cb nb| | | |]; try (cbv in H1; discriminate H1);
      try discriminate H2.
    destruct c as [cc nc| | | |]; try exact H2.
    simpl in *.
    destruct (natural_sort_key n) as [k1|]; simpl in *; [|discriminate].
    destruct (natural_sort_key nb) as [k2|]; simpl in *; [|discriminate].
    destruct (natural_sort_key nc) as [k3|]; simpl in *; [|discriminate].
    eapply list_lt_trans; eassumption.
  - destruct b as [cb nb| | |cb tb bb ob|]; try (cbv in H1; discriminate H1);
      try discriminate H2.
    + destruct c; try reflexivity; cbv in H2; discriminate H2.
    + destruct c as [| | |cc tc bc oc|]; try exact H2.
      simpl in *.
      destruct (expr_eq ba bb) eqn:Eab; destruct (expr_eq bb bc) eqn:Ebc.
      * rewrite (expr_eq_trans _ _ _ Eab Ebc).
        injection H1 as H1. injection H2 as H2. f_equal.
        apply Z.ltb_lt in H1, H2. apply Z.ltb_lt. lia.
      * rewrite (expr_eq_congr _ _ bc Eab), Ebc.
        rewrite (proj1 (expr_lt_congr _ _ Eab bc)). exact H2.
      * assert (expr_eq ba bc = false) as ->.
        { rewrite expr_eq_sym, <- (expr_eq_congr _ _ ba Ebc), expr_eq_sym. exact Eab. }
        rewrite <- (proj2 (expr_lt_congr _ _ Ebc ba)). exact H1.
      * pose proof (IH _ _ H1 H2) as H13.
        destruct (expr_eq ba bc) eqn:Eac; [|exact H13].
        exfalso. apply (expr_lt_asym _ _ H1).
        rewrite (proj2 (expr_lt_congr _ _ Eac bb)). exact H2.
Qed.

(** X5.  Wherever [<] answers, it is a strict order: never both ways round
    for the same pair, never on an expression and itself, and from [a < b]
    and [b < c] follows [a < c]. *)
Theorem expr_lt_strict_order :
  (forall a b, expr_lt a b = Ok true -> expr_lt b a <> Ok true)
  /\ (forall a, expr_lt a a <> Ok true)
  /\ (forall a b c,
         expr_lt a b = Ok true -> expr_lt b c = Ok true -> expr_lt a c = Ok true).
Proof.
  split; [exact expr_lt_asym|]. split; [|exact expr_lt_trans].
  intros a H. exact (expr_lt_asym a a H H).
Qed.

Lemma expr_lt_strict_order_witness :
  expr_lt (mkMEM "u8" (mkREG "r2")) (mkVALUE 1) = Ok true
  /\ expr_lt (mkREG "r10") (mkREG "r2") <> Ok true.
Proof.
  split.
  - apply (proj2 (proj2 expr_lt_strict_order) _ (mkREG "r10") _); reflexivity.
  - apply (proj1 expr_lt_strict_order). reflexivity.
Defined.

(** X6.  Two registers with ASCII names whose sort keys exist can always
    be compared: [<] returns both ways round, and it says no both times
    exactly when the two keys are the same. *)
Theorem register_order_total (c1 c2 n1 n2 : string) (k1 k2 : list key) :
  Py.all_chars is_ascii n1 = true -> Py.all_chars is_ascii n2 = true ->
  natural_sort_key n1 = Ok k1 -> natural_sort_key n2 = Ok k2 ->
  exists b1 b2,
    expr_lt (REG c1 n1) (REG c2 n2) = Ok b1
    /\ expr_lt (REG c2 n2) (REG c1 n1) = Ok b2
    /\ (b1 = false /\ b2 = false <-> k1 = k2).
Proof.
  intros _ _ H1 H2. simpl. rewrite H1, H2. simpl.
  pose proof (natural_sort_key_aligned _ _ H1) as A1.
  pose proof (natural_sort_key_aligned _ _ H2) as A2.
  destruct (list_lt_aligned true k1 k2 A1 A2) as [b1 Hb1].
  destruct (list_lt_aligned true k2 k1 A2 A1) as [b2 Hb2].
  exists b1, b2. split; [exact Hb1|]. split; [exact Hb2|]. split.
  - intros [-> ->]. apply list_lt_total; assumption.
  - intros <-. rewrite list_lt_irrefl in Hb1, Hb2.
    injection Hb1 as <-. injection Hb2 as <-. split; reflexivity.
Qed.

Lemma register_order_total_witness :
  exists b1 b2,
    expr_lt (mkREG "a1") (mkREG "a01") = Ok b1
    /\ expr_lt (mkREG "a01") (mkREG "a1") = Ok b2
    /\ (b1 = false /\ b2 = false <-> [KStr "a"; KInt 1; KStr EmptyString]
                                       = [KStr "a"; KInt 1; KStr EmptyString]).
Proof.
  apply (register_order_total EmptyString EmptyString "a1" "a01"); reflexivity.
Defined.

(** X7.  Leading zeros do not count: two names that differ only in how a
    digit run writes the same number have the same key, so neither register
    is below the other, although [==] tells them apart. *)
Theorem leading_zeros_tie (c1 c2 p d1 d2 s : string) (n : Z) :
  ends_with_digit p = false ->
  Py.int_of_str d1 = Ok n -> Py.int_of_str d2 = Ok n ->
  starts_with_digit s = false ->
  is_ok (natural_sort_key (p ++ d1 ++ s)) = true ->
  natural_sort_key (p ++ d1 ++ s) = natural_sort_key (p ++ d2 ++ s)
  /\ expr_lt (REG c1 (p ++ d1 ++ s)) (REG c2 (p ++ d2 ++ s)) = Ok false
  /\ expr_lt (REG c2 (p ++ d2 ++ s)) (REG c1 (p ++ d1 ++ s)) = Ok false.
Proof.
  intros Hp Hd1 Hd2 Hs Hk.
  destruct (re_split_digits_at_run p Hp) as (front & t & Hsplit).
  destruct (int_of_str_digits _ _ Hd1) as [Hne1 Hall1].
  destruct (int_of_str_digits _ _ Hd2) as [Hne2 Hall2].
  assert (natural_sort_key (p ++ d1 ++ s) = natural_sort_key (p ++ d2 ++ s)) as E.
  { unfold natural_sort_key.
    rewrite (Hsplit d1 s Hne1 Hall1 Hs), (Hsplit d2 s Hne2 Hall2 Hs).
    rewrite !mapM_app. simpl.
    rewrite (key_of_digits d1 n Hd1), (key_of_digits d2 n Hd2). reflexivity. }
  split; [exact E|]. simpl. rewrite <- E.
  destruct (natural_sort_key (p ++ d1 ++ s)) as [k|]; [|discriminate].
  simpl. rewrite list_lt_irrefl. split; reflexivity.
Qed.

Lemma leading_zeros_tie_witness :
  (natural_sort_key ("r" ++ "2" ++ "x") = natural_sort_key ("r" ++ "002" ++ "x")
   /\ expr_lt (mkREG ("r" ++ "2" ++ "x")) (mkREG ("r" ++ "002" ++ "x")) = Ok false
   /\ expr_lt (mkREG ("r" ++ "002" ++ "x")) (mkREG ("r" ++ "2" ++ "x")) = Ok false)
  /\ expr_eq (mkREG "r2x") (mkREG "r002x") = false.
Proof.
  split.
  - apply (leading_zeros_tie EmptyString EmptyString "r" "2" "002" "x" 2);
      reflexivity.
  - reflexivity.
Defined.

Lemma split_from_all_chars (P : ascii -> bool) (b : bool) (cur s : string) :
  Py.all_chars P cur = true -> Py.all_chars P s = true ->
  Forall (fun x => Py.all_chars P x = true) (split_from b cur s).
Proof.
  revert b cur. induction s as [|c s IH]; intros b cur Hcur Hs; simpl.
  - destruct b; repeat constructor; exact Hcur.
  - simpl in Hs. apply andb_true_iff in Hs. destruct Hs as [Hc Hs].
    assert (Py.all_chars P (String c EmptyString) = true) as Hc1
        by (simpl; rewrite Hc; reflexivity).
    assert (Py.all_chars P (cur ++ String c EmptyString) = true) as Hc2
        by (rewrite all_chars_app, Hcur, Hc1; reflexivity).
    destruct (Py.is_ascii_digit c), b;
      try (constructor; [exact Hcur|]); apply IH; assumption.
Qed.

Lemma key_of_returns (x : string) :
  Py.all_chars not_superscript x = true -> is_ok (key_of x) = true.
Proof.
  intros Hx. unfold key_of. destruct (Py.isdigit x) eqn:Hd; [|reflexivity].
  unfold Py.int_of_str. destruct x as [|c x]; [discriminate|].
  unfold Py.isdigit in Hd. revert Hx Hd. generalize (String c x). intros y Hy Hd.
  assert (Py.all_chars Py.is_ascii_digit y = true) as ->; [|reflexivity].
  induction y as [|a y IH]; [reflexivity|].
  cbn [Py.all_chars] in *.
  apply andb_true_iff in Hy. destruct Hy as [Ha Hy].
  apply andb_true_iff in Hd. destruct Hd as [Hda Hd].
  rewrite (IH Hy Hd), andb_true_r.
  unfold not_superscript, superscript_digit in Ha. rewrite Hda in Ha.
  destruct (Py.is_ascii_digit a); [reflexivity | discriminate].
Qed.

Lemma split_from_text (cur s : string) :
  Py.all_chars no_digit s = true -> split_from false cur s = [cur ++ s].
Proof.
  revert cur. induction s as [|c s IH]; intros cur Hs; simpl.
  - rewrite append_nil_r. reflexivity.
  - simpl in Hs. apply andb_true_iff in Hs. destruct Hs as [Hc Hs].
    unfold no_digit in Hc. destruct (Py.is_ascii_digit c); [discriminate|].
    rewrite IH, append_assoc by exact Hs. reflexivity.
Qed.

Lemma all_chars_impl (P Q : ascii -> bool) (x : string) :
  (forall c, P c = true -> Q c = true) ->
  Py.all_chars P x = true -> Py.all_chars Q x = true.
Proof.
  intros HPQ. induction x as [|c x IH]; [reflexivity|].
  cbn [Py.all_chars]. intros H. apply andb_true_iff in H. destruct H as [Hc Hx].
  rewrite (HPQ c Hc), (IH Hx). reflexivity.
Qed.

Lemma ascii_not_superscript (c : ascii) :
  is_ascii c = true -> not_superscript c = true.
Proof.
  unfold is_ascii, not_superscript, superscript_digit, Py.isdigit_char.
  intros H. apply N.ltb_lt in H.
  destruct (Py.is_ascii_digit c); [reflexivity|]. cbn [orb negb andb].
  assert ((Py.code c =? 178)%N = false) as -> by (apply N.eqb_neq; lia).
  assert ((Py.code c =? 179)%N = false) as -> by (apply N.eqb_neq; lia).
  assert ((Py.code c =? 185)%N = false) as -> by (apply N.eqb_neq; lia).
  reflexivity.
Qed.

(** X8.  [natural_sort_key] returns for every ASCII name of at most 4300
    characters, the length up to which [int] reads a run of digits; for a
    name made only of superscript digits, which [isdigit] accepts and [int]
    refuses, it raises [ValueError], and so does the comparison of a
    register of that name. *)
Theorem natural_sort_key_returns (name : string) :
  (Py.all_chars is_ascii name = true ->
   (String.length name <= int_max_str_digits)%nat ->
   is_ok (natural_sort_key name) = true)
  /\ (name <> EmptyString -> Py.all_chars superscript_digit name = true ->
      natural_sort_key name = Raise ValueError
      /\ forall c1 c2 other,
           expr_lt (REG c1 name) (REG c2 other) = Raise ValueError).
Proof.
  split.
  - intros Hascii _. unfold natural_sort_key.
    pose proof (all_chars_impl _ _ name ascii_not_superscript Hascii) as H.
    destruct (mapM_returns key_of (re_split_digits name)) as [k ->]; [|reflexivity].
    eapply Forall_impl; [intros x Hx; apply key_of_returns; exact Hx|].
    apply split_from_all_chars; [reflexivity | exact H].
  - intros Hne Hall.
    assert (natural_sort_key name = Raise ValueError) as E.
    { unfold natural_sort_key, re_split_digits.
      assert (Py.all_chars no_digit name = true) as Hnd.
      { clear Hne. induction name as [|c name IH]; [reflexivity|].
        cbn [Py.all_chars] in *. apply andb_true_iff in Hall.
        destruct Hall as [Hc Hall]. rewrite (IH Hall), andb_true_r.
        unfold superscript_digit in Hc. apply andb_true_iff in Hc.
        destruct Hc as [_ Hc]. exact Hc. }
      rewrite split_from_text by exact Hnd. simpl.
      destruct name as [|c name]; [congruence|].
      unfold key_of.
      assert (Py.isdigit (String c name) = true) as ->.
      { unfold Py.isdigit. clear Hne Hnd. revert Hall. generalize (String c name).
        intros y. induction y as [|a y IH]; [reflexivity|].
        cbn [Py.all_chars]. intros H. apply andb_true_iff in H.
        destruct H as [Ha Hy]. rewrite (IH Hy), andb_true_r.
        unfold superscript_digit in Ha. apply andb_true_iff in Ha. tauto. }
      unfold Py.int_of_str.
      rewrite no_digit_not_all_digits by (discriminate || exact Hnd).
      reflexivity. }
    split; [exact E|]. intros c1 c2 other. simpl. rewrite E. reflexivity.
Qed.

Lemma natural_sort_key_returns_witness :
  is_ok (natural_sort_key "blk10_loop2") = true
  /\ natural_sort_key (String (ascii_of_N 178) EmptyString) = Raise ValueError.
Proof.
  split.
  - apply (proj1 (natural_sort_key_returns "blk10_loop2")).
    + reflexivity.
    + unfold int_max_str_digits. simpl. lia.
  - apply (proj2 (natural_sort_key_returns (String (ascii_of_N 178) EmptyString)));
      [discriminate | reflexivity].
Defined.

(** X9.  Only [REG] and [MEM] can stand on the left of [<]: with a [VALUE],
    an [ADDR] or an [SFUNC] there the comparison raises [TypeError],
    whatever is on the right.  A [REG] or a [MEM] against an expression of
    another class never raises: the class names decide. *)
Theorem order_defined_for_REG_and_MEM (self other : expr) :
  (type_name self <> "REG" -> type_name self <> "MEM" ->
   expr_lt self other = Raise TypeError)
  /\ (type_name self = "REG" \/ type_name self = "MEM" ->
      type_name other <> type_name self ->
      expr_lt self other = Ok (type_name self <? type_name other)%string).
Proof.
  split.
  - intros H1 H2. destruct self; simpl in *; congruence.
  - intros [H | H] Hne; destruct self; try discriminate H;
      destruct other; simpl in *; congruence.
Qed.

Lemma order_defined_for_REG_and_MEM_witness :
  expr_lt (mkVALUE 1) (mkREG "a") = Raise TypeError
  /\ expr_lt (mkREG "a") (mkVALUE 1) = Ok true.
Proof.
  split.
  - apply (proj1 (order_defined_for_REG_and_MEM (mkVALUE 1) (mkREG "a")));
      discriminate.
  - apply (proj2 (order_defined_for_REG_and_MEM (mkREG "a") (mkVALUE 1)));
      [left; reflexivity | discriminate].
Defined.

(** X10.  Two memory references with equal bases are ordered by offset
    alone, whatever their type tags and comments.  With unequal bases the
    bases decide, so two references at different constant addresses cannot
    be ordered: the comparison raises [TypeError]. *)
Theorem MEM_order (c1 t1 : string) (b1 : expr) (o1 : Z)
  (c2 t2 : string) (b2 : expr) (o2 : Z) :
  (expr_eq b1 b2 = true ->
   expr_lt (MEM c1 t1 b1 o1) (MEM c2 t2 b2 o2) = Ok (o1 <? o2)%Z)
  /\ (expr_eq b1 b2 = false ->
      expr_lt (MEM c1 t1 b1 o1) (MEM c2 t2 b2 o2) = expr_lt b1 b2)
  /\ (expr_eq b1 b2 = false ->
      type_name b1 <> "REG" -> type_name b1 <> "MEM" ->
      expr_lt (MEM c1 t1 b1 o1) (MEM c2 t2 b2 o2) = Raise TypeError).
Proof.
  simpl. repeat split.
  - intros ->. reflexivity.
  - intros ->. reflexivity.
  - intros -> H1 H2. destruct b1; simpl in *; congruence.
Qed.

Lemma MEM_order_witness :
  expr_lt (MEM EmptyString "u8" (mkREG "sp") 4) (MEM "x" "u32" (mkREG "sp") 8)
  = Ok true
  /\ expr_lt (mkMEM "u32" (mkVALUE 4096)) (mkMEM "u32" (mkVALUE 8192))
     = Raise TypeError.
Proof.
  split.
  - apply (proj1 (MEM_order EmptyString "u8" (mkREG "sp") 4
                    "x" "u32" (mkREG "sp") 8)). reflexivity.
  - apply (proj2 (proj2 (MEM_order EmptyString "u32" (mkVALUE 4096) 0
                           EmptyString "u32" (mkVALUE 8192) 0)));
      [reflexivity | discriminate | discriminate].
Defined.

(** ** Instructions: the canonical rendering, operator by operator *)

(** X11.  The canonical rendering never shows the address, and of the
    annotations it reads ["org_inst"] only: two instructions with the same
    destination, operator, arguments and ["org_inst"] item render alike. *)
Theorem Inst_str_reads_org_inst_only (dest : option expr) (op : string)
  (args : list arg) (addr1 addr2 : option string)
  (comments1 comments2 : list (string * annot)) :
  dict_get "org_inst" comments1 = dict_get "org_inst" comments2 ->
  Inst_str (Inst dest op args addr1 comments1)
  = Inst_str (Inst dest op args addr2 comments2).
Proof.
  intros H. rewrite !Inst_str_unfold, H. reflexivity.
Qed.

Lemma Inst_str_reads_org_inst_only_witness :
  Inst_str (Inst (Some (mkREG "a")) "ASSIGN" [AExpr (mkVALUE 1)] (Some "0x40")
              [("dead", AnStr "yes")])
  = Inst_str (Inst (Some (mkREG "a")) "ASSIGN" [AExpr (mkVALUE 1)] None []).
Proof.
  apply Inst_str_reads_org_inst_only. reflexivity.
Defined.

(** X12.  [ASSIGN] renders as [dest = arg0], [goto] and [call] as the
    keyword and [arg0], each after the comment line if there is one; the
    arguments after the first are not shown, and without any argument the
    rendering raises [IndexError]. *)
Theorem control_operators_rendering (dest : option expr) (a0 : arg)
  (rest : list arg) (addr : option string) (comments : list (string * annot)) :
  Inst_str (Inst dest "ASSIGN" (a0 :: rest) addr comments)
  = (s <- org_prefix comments ;; Ok (s ++ dest_str dest ++ " = " ++ arg_str a0))
  /\ Inst_str (Inst dest "goto" (a0 :: rest) addr comments)
     = (s <- org_prefix comments ;; Ok (s ++ "goto " ++ arg_str a0))
  /\ Inst_str (Inst dest "call" (a0 :: rest) addr comments)
     = (s <- org_prefix comments ;; Ok (s ++ "call " ++ arg_str a0))
  /\ Inst_str (Inst dest "ASSIGN" [] addr comments)
     = (_ <- org_prefix comments ;; Raise IndexError)
  /\ Inst_str (Inst dest "goto" [] addr comments)
     = (_ <- org_prefix comments ;; Raise IndexError)
  /\ Inst_str (Inst dest "call" [] addr comments)
     = (_ <- org_prefix comments ;; Raise IndexError).
Proof.
  rewrite !Inst_str_unfold. unfold org_prefix, Inst_str_body. simpl.
  repeat split; destruct (org_line _); reflexivity.
Qed.

Lemma alpha_not_infix (c : ascii) (rest : string) (args : list arg)
  (dest : option expr) (org : option (result string)) :
  Py.isalpha_char c = true ->
  (String c rest =? "LIT")%string = false ->
  (String c rest =? "return")%string = false ->
  (String c rest =? "goto")%string = false ->
  (String c rest =? "call")%string = false ->
  (String c rest =? "ASSIGN")%string = false ->
  Inst_str_body dest (String c rest) args org
  = (s <- org_line org ;;
     if (String c rest =? "SFUNC")%string then
       match args with
       | [] => Raise IndexError
       | a0 :: l =>
           Ok (s ++ dest_prefix dest ++ arg_str a0
                 ++ "(" ++ Py.join ", " (map arg_str l) ++ ")")
       end
     else Ok (s ++ dest_prefix dest ++ String c rest
                ++ "(" ++ Py.join ", " (map arg_str args) ++ ")")).
Proof.
  intros Hc H1 H2 H3 H4 H5. unfold Inst_str_body.
  rewrite H1, H2, H3, H4, H5, Hc. cbn [negb orb].
  destruct (org_line org) as [s|]; cbn [bind]; [|reflexivity].
  destruct (String c rest =? "SFUNC")%string.
  - destruct args as [|a0 l]; [reflexivity|].
    destruct dest; cbn [dest_prefix]; rewrite ?append_assoc; reflexivity.
  - destruct dest; cbn [dest_prefix]; rewrite ?append_assoc; reflexivity.
Qed.

(** X13.  An operator that begins with a letter and has no rendering of
    its own renders as a call, [op(a, b, ...)], after [dest = ] when there
    is a destination; this never raises, whatever the number of arguments.
    The operator [SFUNC] takes the name of the call from its first argument
    and raises [IndexError] without one. *)
Theorem call_rendering (dest : option expr) (c : ascii) (rest : string)
  (args : list arg) (addr : option string) (comments : list (string * annot)) :
  Py.isalpha_char c = true ->
  ~ In (String c rest) ["LIT"; "return"; "goto"; "call"; "ASSIGN"; "SFUNC"] ->
  Inst_str (Inst dest (String c rest) args addr comments)
  = (s <- org_prefix comments ;;
     Ok (s ++ dest_prefix dest ++ String c rest
           ++ "(" ++ Py.join ", " (map arg_str args) ++ ")"))
  /\ (forall a0,
         Inst_str (Inst dest "SFUNC" (a0 :: args) addr comments)
         = (s <- org_prefix comments ;;
            Ok (s ++ dest_prefix dest ++ arg_str a0
                  ++ "(" ++ Py.join ", " (map arg_str args) ++ ")")))
  /\ Inst_str (Inst dest "SFUNC" [] addr comments)
     = (_ <- org_prefix comments ;; Raise IndexError).
Proof.
  intros Hc Hop. split; [|split].
  - rewrite Inst_str_unfold, alpha_not_infix; try exact Hc;
      try (apply String.eqb_neq; intros E; apply Hop; rewrite E; simpl; tauto).
    assert ((String c rest =? "SFUNC")%string = false) as ->
        by (apply String.eqb_neq; intros E; apply Hop; rewrite E; simpl; tauto).
    reflexivity.
  - intros a0. rewrite Inst_str_unfold, alpha_not_infix by reflexivity.
    reflexivity.
  - rewrite Inst_str_unfold, alpha_not_infix by reflexivity.
    unfold org_prefix. destruct (org_line _); reflexivity.
Qed.

Lemma call_rendering_witness :
  Inst_str (mkInst (Some (mkREG "a0")) "max"
              [AExpr (mkREG "a1"); AExpr (mkVALUE 16)] None)
  = Ok "$a0 = max($a1, 0x10)"
  /\ Inst_str (mkInst None "nop" [] None) = Ok "nop()".
Proof.
  split.
  - apply (proj1 (call_rendering (Some (mkREG "a0")) "m"%char "ax"
                    [AExpr (mkREG "a1"); AExpr (mkVALUE 16)] None []
                    eq_refl
                    ltac:(simpl; intuition discriminate))).
  - apply (proj1 (call_rendering None "n"%char "op" [] None []
                    eq_refl ltac:(simpl; intuition discriminate))).
Defined.

(** X14.  A [LIT] instruction renders as its first argument, a text,
    whatever its destination, address, annotations and further arguments;
    when the first argument is an expression the rendering raises
    [TypeError], and without arguments [IndexError]. *)
Theorem LIT_rendering (dest : option expr) (rest : list arg)
  (addr : option string) (comments : list (string * annot)) :
  (forall t, Inst_str (Inst dest "LIT" (AStr t :: rest) addr comments) = Ok t)
  /\ (forall e, Inst_str (Inst dest "LIT" (AExpr e :: rest) addr comments)
                = Raise TypeError)
  /\ Inst_str (Inst dest "LIT" [] addr comments) = Raise IndexError.
Proof.
  rewrite !Inst_str_unfold. repeat split; intros; rewrite Inst_str_unfold; reflexivity.
Qed.

(** X15.  Whether the canonical rendering raises depends on the operator
    and on the number of arguments only, once the comment line is built:
    [LIT] needs a text first, [goto], [call], [ASSIGN] and [SFUNC] need an
    argument, an operator that begins with a non-letter needs exactly two,
    the empty operator always raises, and [return] and the other operators
    never do. *)
Theorem Inst_str_returns (dest : option expr) (op : string) (args : list arg)
  (addr : option string) (comments : list (string * annot)) :
  is_ok (org_prefix comments) = true ->
  is_ok (Inst_str (Inst dest op args addr comments)) = str_returns op args.
Proof.
  intros Horg. rewrite Inst_str_unfold. unfold org_prefix in Horg.
  unfold Inst_str_body, str_returns.
  destruct (op =? "LIT")%string.
  { destruct args as [|[e|t] l]; reflexivity. }
  destruct (org_line _) as [s|]; [|discriminate]. simpl.
  destruct (op =? "return")%string; [reflexivity|].
  destruct (op =? "goto")%string; simpl.
  { destruct args; reflexivity. }
  destruct (op =? "call")%string; simpl.
  { destruct args; reflexivity. }
  destruct (op =? "ASSIGN")%string eqn:Eassign; simpl.
  { destruct args; reflexivity. }
  destruct op as [|c rest].
  { reflexivity. }
  destruct (String.eqb_spec (String c rest) "SFUNC") as [E | _].
  - injection E as -> ->. simpl. destruct args; reflexivity.
  - simpl. destruct (Py.isalpha_char c); simpl; [reflexivity|].
    destruct args as [|a0 [|a1 [|a2 l]]]; simpl; try reflexivity.
    destruct (dest_eq_arg dest a0); reflexivity.
Qed.

Lemma Inst_str_returns_witness :
  is_ok (Inst_str (mkInst None "goto" [] None)) = false
  /\ is_ok (Inst_str (mkInst None "return" [] None)) = true.
Proof.
  split.
  - apply (Inst_str_returns None "goto" [] None []). reflexivity.
  - apply (Inst_str_returns None "return" [] None []). reflexivity.
Defined.

(** ** Instructions: the diagnostic rendering *)

Lemma Inst_repr_body_prefix (dest : option expr) (op : string) (args : list arg)
  (addr : option string) (org : option (result string))
  (rest : list (string * result string)) (s0 s : string) :
  org_line org = Ok s0 ->
  Inst_repr_body dest op args addr org rest = Ok s ->
  exists r, s = s0 ++ r.
Proof.
  intros Horg. unfold Inst_repr_body. rewrite Horg. cbn [bind].
  set (s1 := match addr with Some a => s0 ++ "/*" ++ a ++ "*/ " | None => s0 end).
  assert (exists r1, s1 = s0 ++ r1) as [r1 Hr1].
  { unfold s1. destruct addr; eexists; [reflexivity|].
    symmetry. apply append_nil_r. }
  rewrite Hr1.
  assert (forall s2 : string,
             (exists r2, s2 = s0 ++ r2) ->
             match rest with
             | [] => Ok s2
             | _ :: _ =>
                 items <- mapM (fun kv : string * result string =>
                                  v <- snd kv ;; Ok (fst kv, v)) rest ;;
                 Ok (s2 ++ " # " ++ dict_repr items)
             end = Ok s -> exists r, s = s0 ++ r) as Htail.
  { intros s2 [r2 ->]. destruct rest as [|kv rest'].
    - intros H. injection H as <-. eexists; reflexivity.
    - destruct (mapM _ (kv :: rest')) as [items|]; cbn [bind]; [|discriminate].
      intros H. injection H as <-. rewrite append_assoc. eexists; reflexivity. }
  destruct dest as [d|].
  - cbn [bind]. apply Htail. rewrite append_assoc. eexists; reflexivity.
  - destruct (op =? "LIT")%string.
    + destruct args as [|[e|t] l]; cbn [bind]; try discriminate.
      apply Htail. rewrite append_assoc. eexists; reflexivity.
    + cbn [bind]. apply Htail. rewrite append_assoc. eexists; reflexivity.
Qed.

(** X16.  The diagnostic rendering of an instruction with the
    ["org_inst"] annotation starts with the comment line of that annotation,
    for every operator, [LIT] included. *)
Theorem Inst_repr_shows_provenance (dest : option expr) (op : string)
  (args : list arg) (addr : option string) (comments : list (string * annot))
  (v : annot) (s : string) :
  dict_get "org_inst" comments = Some v ->
  Inst_repr (Inst dest op args addr comments) = Ok s ->
  exists t rest, annot_str v = Ok t /\ s = "// " ++ t ++ Py.nl ++ rest.
Proof.
  intros Hv Hs. rewrite Inst_repr_unfold, Hv in Hs. cbn [option_map] in Hs.
  destruct (annot_str v) as [t|e] eqn:Ht.
  - destruct (Inst_repr_body_prefix dest op args addr (Some (Ok t)) _
                ("// " ++ t ++ Py.nl) s eq_refl Hs) as [r ->].
    exists t, r. split; [reflexivity|]. rewrite !append_assoc. reflexivity.
  - unfold Inst_repr_body in Hs. simpl in Hs. discriminate.
Qed.

Lemma Inst_repr_shows_provenance_witness :
  exists t rest,
    annot_str (AnInst assign_x_1) = Ok t
    /\ "// $x = 0x1" ++ Py.nl ++ "nop" = "// " ++ t ++ Py.nl ++ rest.
Proof.
  apply (Inst_repr_shows_provenance None "LIT" [AStr "nop"] None
           [("org_inst", AnInst assign_x_1)] (AnInst assign_x_1));
    reflexivity.
Defined.

Lemma dict_get_org_only (comments : list (string * annot)) :
  dict_get "org_inst" (org_only comments) = dict_get "org_inst" comments.
Proof.
  unfold org_only. destruct (dict_get "org_inst" comments); reflexivity.
Qed.

Lemma dict_remove_org_only (comments : list (string * annot)) :
  dict_remove "org_inst" (org_only comments) = [].
Proof.
  unfold org_only. destruct (dict_get "org_inst" comments); reflexivity.
Qed.

(** X17.  The annotations other than ["org_inst"] appear in the diagnostic
    rendering as one trailing comment, the [repr] of the dict of them in
    insertion order, after everything else; without such annotations the
    rendering has no trailing comment. *)
Theorem Inst_repr_trailing_comment (dest : option expr) (op : string)
  (args : list arg) (addr : option string) (comments : list (string * annot)) :
  Inst_repr (Inst dest op args addr comments)
  = (s <- Inst_repr (Inst dest op args addr (org_only comments)) ;;
     match dict_remove "org_inst" comments with
     | [] => Ok s
     | others =>
         items <- mapM (fun kv : string * annot =>
                          v <- annot_repr (snd kv) ;; Ok (fst kv, v)) others ;;
         Ok (s ++ " # " ++ dict_repr items)
     end).
Proof.
  rewrite !Inst_repr_unfold, dict_get_org_only, dict_remove_org_only.
  unfold Inst_repr_body. cbn [map].
  destruct (org_line _) as [s0|]; cbn [bind]; [|reflexivity].
  set (core := match dest with Some d => _ | None => _ end).
  destruct core as [s|]; cbn [bind]; [|reflexivity].
  destruct (dict_remove "org_inst" comments) as [|kv l]; [reflexivity|].
  rewrite mapM_map. reflexivity.
Qed.

(** X18.  Without annotations the diagnostic rendering is
    [dest = op([args])] after the address, for every operator when there is
    a destination, [LIT] included; without destination it is [op([args])],
    except for [LIT], which shows its text, and which alone can raise: when
    its first argument is missing or is not a text. *)
Theorem Inst_repr_plain (op : string) (args : list arg) (addr : option string) :
  (forall d,
      Inst_repr (Inst (Some d) op args addr [])
      = Ok (addr_prefix addr ++ expr_str d ++ " = " ++ op
              ++ "(" ++ Py.repr_list (map arg_repr args) ++ ")"))
  /\ (op <> "LIT" ->
      Inst_repr (Inst None op args addr [])
      = Ok (addr_prefix addr ++ op
              ++ "(" ++ Py.repr_list (map arg_repr args) ++ ")"))
  /\ (forall t,
         Inst_repr (Inst None "LIT" (AStr t :: args) addr [])
         = Ok (addr_prefix addr ++ t))
  /\ (forall e,
         Inst_repr (Inst None "LIT" (AExpr e :: args) addr []) = Raise TypeError)
  /\ Inst_repr (Inst None "LIT" [] addr []) = Raise IndexError.
Proof.
  unfold Inst_repr, Inst_repr_body. cbn [map dict_get dict_remove org_line bind].
  split; [|split; [|split; [|split]]].
  - intros d. destruct addr; cbn [addr_prefix bind];
      rewrite ?append_assoc; reflexivity.
  - intros Hop. destruct (String.eqb_spec op "LIT") as [E|_]; [contradiction|].
    destruct addr; cbn [addr_prefix bind]; rewrite ?append_assoc; reflexivity.
  - intros t. destruct addr; cbn [addr_prefix bind];
      rewrite ?append_assoc; reflexivity.
  - intros e. reflexivity.
  - reflexivity.
Qed.

Lemma Inst_repr_plain_witness :
  Inst_repr (Inst None "goto" [AExpr (mkADDR "loop")] (Some "0x10") [])
  = Ok "/*0x10*/ goto([ADDR(loop)])".
Proof.
  apply (proj1 (proj2 (Inst_repr_plain "goto" [AExpr (mkADDR "loop")]
                         (Some "0x10")))).
  discriminate.
Defined.

(** ** Instructions: equality is an equivalence *)

Lemma arg_eq_sym (a b : arg) : arg_eq a b = arg_eq b a.
Proof.
  destruct a, b; simpl; try reflexivity;
    [apply expr_eq_sym | apply String.eqb_sym].
Qed.

Lemma arg_eq_trans (a b c : arg) :
  arg_eq a b = true -> arg_eq b c = true -> arg_eq a c = true.
Proof.
  destruct a, b, c; simpl; try discriminate.
  - apply expr_eq_trans.
  - intros H1 H2. apply String.eqb_eq in H1, H2. subst. apply String.eqb_refl.
Qed.

Lemma args_eq_sym (l1 l2 : list arg) : args_eq l1 l2 = args_eq l2 l1.
Proof.
  revert l2. induction l1 as [|a l1 IH]; intros [|b l2]; simpl; try reflexivity.
  rewrite arg_eq_sym, IH. reflexivity.
Qed.

Lemma args_eq_trans (l1 l2 l3 : list arg) :
  args_eq l1 l2 = true -> args_eq l2 l3 = true -> args_eq l1 l3 = true.
Proof.
  revert l2 l3. induction l1 as [|a l1 IH]; intros [|b l2] [|c l3]; simpl;
    try discriminate; try reflexivity.
  intros H1 H2.
  apply andb_true_iff in H1. destruct H1 as [Hab H1].
  apply andb_true_iff in H2. destruct H2 as [Hbc H2].
  rewrite (arg_eq_trans _ _ _ Hab Hbc), (IH _ _ H1 H2). reflexivity.
Qed.

Lemma dest_eq_sym (d1 d2 : option expr) : dest_eq d1 d2 = dest_eq d2 d1.
Proof. destruct d1, d2; simpl; try reflexivity. apply expr_eq_sym. Qed.

Lemma dest_eq_trans (d1 d2 d3 : option expr) :
  dest_eq d1 d2 = true -> dest_eq d2 d3 = true -> dest_eq d1 d3 = true.
Proof.
  destruct d1, d2, d3; simpl; try discriminate; try reflexivity.
  apply expr_eq_trans.
Qed.

(** X19.  [==] on instructions is an equivalence: reflexive, the same
    both ways round, and transitive. *)
Theorem inst_eq_equivalence :
  (forall i, inst_eq i i = true)
  /\ (forall i j, inst_eq i j = inst_eq j i)
  /\ (forall i j k, inst_eq i j = true -> inst_eq j k = true -> inst_eq i k = true).
Proof.
  unfold inst_eq. split; [|split].
  - intros i. rewrite String.eqb_refl, dest_eq_refl, args_eq_refl. reflexivity.
  - intros i j. rewrite String.eqb_sym, dest_eq_sym, args_eq_sym. reflexivity.
  - intros i j k H1 H2.
    apply andb_true_iff in H1. destruct H1 as [H1 Ha1].
    apply andb_true_iff in H1. destruct H1 as [Ho1 Hd1].
    apply andb_true_iff in H2. destruct H2 as [H2 Ha2].
    apply andb_true_iff in H2. destruct H2 as [Ho2 Hd2].
    apply String.eqb_eq in Ho1, Ho2. rewrite Ho1, Ho2, String.eqb_refl.
    rewrite (dest_eq_trans _ _ _ Hd1 Hd2), (args_eq_trans _ _ _ Ha1 Ha2).
    reflexivity.
Qed.

Lemma inst_eq_equivalence_witness :
  inst_eq (Inst (Some (mkREG "a")) "ASSIGN" [AExpr (VALUE EmptyString 16 16)] None [])
          (Inst (Some (REG "c" "a")) "ASSIGN" [AExpr (VALUE EmptyString 16 10)]
                (Some "8") [("dead", AnStr "1")]) = true.
Proof.
  apply (proj2 (proj2 inst_eq_equivalence)
           _ (Inst (Some (mkREG "a")) "ASSIGN" [AExpr (VALUE "x" 16 8)] (Some "4") []) _);
    reflexivity.
Defined.

(** ** Conditions: when negation raises, and how it composes *)

Lemma mapM_neg_item_returns (args : list citem) :
  Forall (item_holds (fun c => is_ok (neg c) = wf_cond c
                               /\ forall e, neg c = Raise e -> e = KeyError))
         args ->
  is_ok (mapM neg_item args) = forallb wf_item args
  /\ forall e, mapM neg_item args = Raise e -> e = KeyError.
Proof.
  induction 1 as [|x args Hx _ [IH1 IH2]]; simpl.
  - split; [reflexivity | discriminate].
  - assert (is_ok (neg_item x) = wf_item x
            /\ forall e, neg_item x = Raise e -> e = KeyError) as [Hx1 Hx2].
    { destruct x as [s0 | c]; simpl in *.
      - unfold dict_getitem, dict_contains.
        destruct (dict_get s0 CompoundCond_NEG); simpl.
        + split; [reflexivity | discriminate].
        + split; [reflexivity|]. intros e H. now injection H as <-.
      - destruct Hx as [H1 H2]. destruct (neg c) as [c'|e'] eqn:Hc; simpl in *.
        + split; [exact H1 | discriminate].
        + split; [exact H1|]. intros e H. injection H as <-. now apply H2. }
    destruct (neg_item x) as [y|ex]; simpl in *.
    + rewrite <- Hx1. simpl.
      destruct (mapM neg_item args) as [ys|eys]; simpl in *.
      * split; [exact IH1 | discriminate].
      * split; [exact IH1|]. intros e H. injection H as <-. now apply IH2.
    + rewrite <- Hx1. simpl. split; [reflexivity|].
      intros e H. injection H as <-. now apply Hx2.
Qed.

(** X20.  [neg] returns exactly on the conditions whose operators and
    connectives, at every depth, are keys of the two [NEG] tables; on any
    other condition it raises [KeyError]. *)
Theorem neg_returns_iff_well_formed (c : cond) :
  is_ok (neg c) = wf_cond c
  /\ (forall e, neg c = Raise e -> e = KeyError).
Proof.
  induction c as [a op b | args IH] using cond_nested_ind.
  - simpl. unfold dict_getitem, dict_contains.
    destruct (dict_get op SimpleCond_NEG); simpl.
    + split; [reflexivity | discriminate].
    + split; [reflexivity|]. intros e H. now injection H as <-.
  - rewrite neg_compound, wf_compound.
    destruct (mapM_neg_item_returns args IH) as [H1 H2].
    destruct (mapM neg_item args) as [l|e']; simpl in *.
    + split; [exact H1 | discriminate].
    + split; [exact H1|]. intros e H. injection H as <-. now apply H2.
Qed.

Lemma neg_returns_iff_well_formed_witness :
  neg (CompoundCond [Sub (SimpleCond (mkREG "a") "===" (mkVALUE 0))])
  = Raise KeyError.
Proof.
  destruct (neg (CompoundCond [Sub (SimpleCond (mkREG "a") "===" (mkVALUE 0))]))
    as [c|e] eqn:E; [discriminate E|].
  f_equal.
  exact (proj2 (neg_returns_iff_well_formed
                  (CompoundCond [Sub (SimpleCond (mkREG "a") "===" (mkVALUE 0))]))
           e E).
Defined.

(** X21.  Negation goes through [append]: when a compound condition, a
    connective and a further condition can each be negated, the negation of
    the condition extended by the connective and the further condition is
    the negated condition extended by the swapped connective and the
    negated further condition. *)
Theorem neg_append (args l : list citem) (op op' : string) (c c' : cond) :
  neg (CompoundCond args) = Ok (CompoundCond l) ->
  dict_getitem op CompoundCond_NEG = Ok op' ->
  neg c = Ok c' ->
  neg (CompoundCond (CompoundCond_append args op c))
  = Ok (CompoundCond (CompoundCond_append l op' c')).
Proof.
  rewrite !neg_compound. unfold CompoundCond_append. intros Hargs Hop Hc.
  destruct (mapM neg_item args) as [l0|] eqn:Hl; simpl in Hargs; [|discriminate].
  injection Hargs as ->.
  rewrite mapM_app, Hl. simpl. rewrite Hop, Hc. reflexivity.
Qed.

Lemma neg_append_witness :
  neg (CompoundCond (CompoundCond_append
                       [Sub (SimpleCond (mkREG "a") "<" (mkVALUE 4))]
                       "&&" (SimpleCond (mkREG "b") "==" (mkVALUE 0))))
  = Ok (CompoundCond (CompoundCond_append
                        [Sub (SimpleCond (mkREG "a") ">=" (mkVALUE 4))]
                        "||" (SimpleCond (mkREG "b") "!=" (mkVALUE 0)))).
Proof.
  apply neg_append; reflexivity.
Defined.

(** X22.  [list()] and [neg()] commute: negating the compound made of the
    items of a condition gives the compound made of the items of the
    negated condition, for a simple condition as for a compound one. *)
Theorem neg_of_list (c : cond) :
  neg (CompoundCond (cond_list c))
  = (c' <- neg c ;; Ok (CompoundCond (cond_list c'))).
Proof.
  destruct c as [a op b | args].
  - rewrite neg_compound. simpl.
    destruct (dict_getitem op SimpleCond_NEG); reflexivity.
  - simpl cond_list. rewrite neg_compound.
    destruct (mapM neg_item args); reflexivity.
Qed.

(** ** Basic blocks *)

Lemma BBlock_dump_app (printer : inst -> result string) (indent : nat)
  (l1 l2 : list inst) (stream : string) :
  BBlock_dump stream indent printer (l1 ++ l2)
  = (st <- BBlock_dump stream indent printer l1 ;;
     BBlock_dump st indent printer l2).
Proof.
  revert stream. induction l1 as [|i l1 IH]; intros stream; simpl; [reflexivity|].
  destruct (printer i) as [t|]; simpl; [apply IH | reflexivity].
Qed.

(** X23.  [dump] writes, after what the stream holds, one line for each
    instruction of the block, in the order of the block, each line made of
    two spaces for each level of indentation, the text of the printer and a
    newline; when the printer raises on an instruction, so does [dump]. *)
Theorem BBlock_dump_lines (printer : inst -> result string) (indent : nat)
  (l : list inst) (stream : string) :
  BBlock_dump stream indent printer l
  = (lines <- mapM printer l ;; Ok (stream ++ indented_text indent lines)).
Proof.
  revert stream. induction l as [|i l IH]; intros stream; simpl.
  - rewrite append_nil_r. reflexivity.
  - destruct (printer i) as [t|]; simpl; [|reflexivity].
    rewrite IH. destruct (mapM printer l) as [lines|]; simpl; [|reflexivity].
    unfold BBlock_write, stream_write. rewrite !append_assoc. reflexivity.
Qed.

(** X24.  [add] puts the instruction at the end: a block built by adding
    instructions one after the other holds them in that order, and the dump
    of a block after an [add] is the dump of the block before, followed by
    the line of the added instruction. *)
Theorem BBlock_add_at_end (b : BBlock) :
  (forall l, items (fold_left BBlock_add l b) = (items b ++ l)%list)
  /\ (forall s printer indent stream,
         BBlock_dump stream indent printer (items (BBlock_add b s))
         = (st <- BBlock_dump stream indent printer (items b) ;;
            t <- printer s ;;
            Ok (BBlock_write st indent t)))
  /\ (forall s, bb_addr (BBlock_add b s) = bb_addr b
                /\ BBlock_repr (BBlock_add b s) = BBlock_repr b).
Proof.
  split; [|split].
  - intros l. revert b. induction l as [|s l IH]; intros b; simpl.
    + symmetry. apply app_nil_r.
    + rewrite IH. simpl. rewrite <- app_assoc. reflexivity.
  - intros s printer indent stream. simpl. rewrite BBlock_dump_app.
    destruct (BBlock_dump stream indent printer (items b)) as [st|]; simpl;
      [|reflexivity].
    destruct (printer s); reflexivity.
  - intros s. split; reflexivity.
Qed.

(** ** The script of transformations *)

Section ScriptFacts.
Context {Cfg func : Type}.
Variable call : func -> Cfg -> result unit * Cfg.
Variable foreach_bblock : Cfg -> func -> result unit * Cfg.

Lemma apply_script_app (globals : list (string * func))
  (s1 s2 : list (string * string)) (cfg : Cfg) :
  apply_script Cfg func call foreach_bblock globals (s1 ++ s2) cfg
  = match apply_script Cfg func call foreach_bblock globals s1 cfg with
    | (Ok _, cfg') => apply_script Cfg func call foreach_bblock globals s2 cfg'
    | (Raise e, cfg') => (Raise e, cfg')
    end.
Proof.
  revert cfg. induction s1 as [|entry s1 IH]; intros cfg; simpl; [reflexivity|].
  destruct (apply_entry Cfg func call foreach_bblock globals entry cfg)
    as [[u|e] cfg']; [apply IH | reflexivity].
Qed.
End ScriptFacts.

(** X25.  Running a script made of two parts is running the first part
    and then, if it did not raise, the second part on the graph that the
    first part left; if the first part raises, the run stops there, with the
    graph as it then is. *)
Theorem script_runs_in_order (Cfg func : Type)
  (call : func -> Cfg -> result unit * Cfg)
  (foreach_bblock : Cfg -> func -> result unit * Cfg)
  (globals : list (string * func)) (s1 s2 : list (string * string)) (cfg : Cfg) :
  apply_script Cfg func call foreach_bblock globals (s1 ++ s2) cfg
  = match apply_script Cfg func call foreach_bblock globals s1 cfg with
    | (Ok _, cfg') => apply_script Cfg func call foreach_bblock globals s2 cfg'
    | (Raise e, cfg') => (Raise e, cfg')
    end.
Proof. apply apply_script_app. Qed.

(** X26.  A script entry that names a function missing from [globals()]
    raises [KeyError], whatever its kind, and an entry of unknown kind that
    names a known function raises [AssertionError] without calling it.  In
    both cases the entries before it have been applied and their effect
    stays, and the entries after it are not run. *)
Theorem script_stops_at_bad_entry (Cfg func : Type)
  (call : func -> Cfg -> result unit * Cfg)
  (foreach_bblock : Cfg -> func -> result unit * Cfg)
  (globals : list (string * func)) (s1 s2 : list (string * string))
  (type xform : string) (cfg cfg1 : Cfg) :
  apply_script Cfg func call foreach_bblock globals s1 cfg = (Ok tt, cfg1) ->
  (dict_get xform globals = None ->
   apply_script Cfg func call foreach_bblock globals
     (s1 ++ (type, xform) :: s2) cfg = (Raise KeyError, cfg1))
  /\ (dict_contains xform globals = true ->
      type <> "xform:" -> type <> "xform_bblock:" ->
      apply_script Cfg func call foreach_bblock globals
        (s1 ++ (type, xform) :: s2) cfg = (Raise AssertionError, cfg1)).
Proof.
  intros H1. rewrite apply_script_app, H1. simpl. unfold dict_getitem, dict_contains.
  split.
  - intros ->. reflexivity.
  - destruct (dict_get xform globals) as [f|]; [|discriminate].
    intros _ Ha Hb.
    destruct (String.eqb_spec type "xform:"); [contradiction|].
    destruct (String.eqb_spec type "xform_bblock:"); [contradiction|].
    reflexivity.
Qed.

Lemma script_stops_at_bad_entry_witness :
  apply_script nat (nat -> nat) (fun f n => (Ok tt, f n))
    (fun n f => (Ok tt, f (f n))) [("inc", S)]
    ([("xform:", "inc"); ("xform_bblock:", "inc")]
       ++ ("xform:", "dce") :: [("xform:", "inc")]) 0%nat
  = (Raise KeyError, 3%nat)
  /\ apply_script nat (nat -> nat) (fun f n => (Ok tt, f n))
       (fun n f => (Ok tt, f (f n))) [("inc", S)]
       ([("xform:", "inc")] ++ ("xform_inst:", "inc") :: [("xform:", "inc")]) 0%nat
     = (Raise AssertionError, 1%nat).
Proof.
  split.
  - apply (proj1 (script_stops_at_bad_entry nat (nat -> nat)
                    (fun f n => (Ok tt, f n)) (fun n f => (Ok tt, f (f n)))
                    [("inc", S)] [("xform:", "inc"); ("xform_bblock:", "inc")]
                    [("xform:", "inc")] "xform:" "dce" 0%nat 3%nat eq_refl)).
    reflexivity.
  - apply (proj2 (script_stops_at_bad_entry nat (nat -> nat)
                    (fun f n => (Ok tt, f n)) (fun n f => (Ok tt, f (f n)))
                    [("inc", S)] [("xform:", "inc")]
                    [("xform:", "inc")] "xform_inst:" "inc" 0%nat 1%nat eq_refl));
      [reflexivity | discriminate | discriminate].
Defined.
